(** * GeoipClient: consensus lookup over five geolocation providers

    A shallow embedding of [src/lib/geoip/client.ts] (class [GeoipClient]):
    the cache-aside wrapper [lookupWithCache], the majority vote [bestMatch],
    the network repair [matchNetwork], the region merge [matchRegion] and the
    entry point [lookup].

    JavaScript values are modelled as follows.
    - a JS string is a [string]; it is truthy iff it is not empty;
    - [asn] is an integer [Z]; it is truthy iff it is not zero;
    - [latitude] and [longitude] are IEEE-754 doubles ([PrimFloat.float]);
    - [state : string | undefined] is an [option string];
    - a promise that has settled is a [PromiseSettledResult];
    - an async function is a computation in the monad [M]: it takes the
      state of the outside world (cache backend, log, metrics) and returns
      a settled result together with the new state of the world. *)

From Stdlib Require Import String Ascii List ZArith NArith Arith Bool Lia.
From Stdlib Require Import Permutation Sorted PrimFloat.
Import ListNotations.

Local Open Scope string_scope.
Local Open Scope list_scope.

(* ================================================================== *)
(** * Data model                                                       *)
(* ================================================================== *)

(** [type Provider = 'ipmap' | 'ip2location' | 'ipinfo' | 'maxmind' | 'fastly'] *)
Inductive Provider : Type :=
| ipmap | ip2location | ipinfo | maxmind | fastly.

Definition Provider_eqb (a b : Provider) : bool :=
  match a, b with
  | ipmap, ipmap | ip2location, ip2location | ipinfo, ipinfo
  | maxmind, maxmind | fastly, fastly => true
  | _, _ => false
  end.

(** [LocationInfo = Omit<ProbeLocation, 'region' | 'normalizedRegion'>] *)
Record LocationInfo : Type := {
  continent : string;
  country : string;
  state : option string;
  city : string;
  normalizedCity : string;
  asn : Z;
  latitude : float;
  longitude : float;
  network : string;
  normalizedNetwork : string;
}.

(** [LocationInfoWithProvider = LocationInfo & {provider: Provider}];
    [_.omit(best, 'provider')] is the projection [location]. *)
Record LocationInfoWithProvider : Type := {
  location :> LocationInfo;
  provider : Provider;
}.

(** [{ ...value, provider: p }] *)
Definition withProvider (value : LocationInfo) (p : Provider)
  : LocationInfoWithProvider :=
  {| location := value; provider := p |}.

(** The value the [ip2LocationLookup] adapter resolves to. *)
Record Ip2LocationBundledResponse : Type := {
  bundled_location : LocationInfo;
  isProxy : bool;
}.

Record RegionInfo : Type := {
  region : string;
  normalizedRegion : string;
}.

Record NetworkInfo : Type := {
  ni_network : string;
  ni_normalizedNetwork : string;
  ni_asn : Z;
}.

(** The object [lookup] returns. *)
Module ProbeLocation.
Record t : Type := {
  continent : string;
  country : string;
  state : option string;
  city : string;
  region : string;
  normalizedRegion : string;
  normalizedCity : string;
  asn : Z;
  latitude : float;
  longitude : float;
  network : string;
  normalizedNetwork : string;
}.
End ProbeLocation.

(** Errors: [new InternalError(message, expose)] and a plain
    [new Error(message)]. *)
Inductive Error : Type :=
| InternalError (message : string) (expose : bool)
| PlainError (message : string).

Definition error_message (e : Error) : string :=
  match e with
  | InternalError m _ => m
  | PlainError m => m
  end.

Inductive PromiseSettledResult (A : Type) : Type :=
| Fulfilled (value : A)
| Rejected (reason : Error).
Arguments Fulfilled {A} value.
Arguments Rejected {A} reason.

(* ================================================================== *)
(** * Truthiness                                                       *)
(* ================================================================== *)

(** JavaScript's [ToBoolean], per type. *)
Class Truthy (T : Type) : Type := truthy : T -> bool.

#[export] Instance Truthy_string : Truthy string :=
  fun s => match s with EmptyString => false | String _ _ => true end.

#[export] Instance Truthy_Z : Truthy Z :=
  fun n => negb (Z.eqb n 0).

#[export] Instance Truthy_bool : Truthy bool := fun b => b.

(** [T | undefined]: [undefined] is falsy. *)
#[export] Instance Truthy_option {T : Type} `{Truthy T} : Truthy (option T) :=
  fun o => match o with None => false | Some v => truthy v end.

(** Objects are always truthy. *)
#[export] Instance Truthy_LocationInfo : Truthy LocationInfo := fun _ => true.
#[export] Instance Truthy_Ip2LocationBundledResponse
  : Truthy Ip2LocationBundledResponse := fun _ => true.

(** An untyped JavaScript value, as a cache backend may hand one back. *)
Inductive jsval : Type :=
| JUndefined
| JNull
| JBool (b : bool)
| JNum (n : Z)
| JStr (s : string)
| JObj (fields : list (string * string)).

#[export] Instance Truthy_jsval : Truthy jsval :=
  fun v =>
    match v with
    | JUndefined | JNull => false
    | JBool b => b
    | JNum n => truthy n
    | JStr s => truthy s
    | JObj _ => true
    end.

(* ================================================================== *)
(** * Objects, grouping and sorting                                    *)
(* ================================================================== *)

Section Grouping.
Context {A : Type}.

(** A plain JS object whose values are arrays: its own properties in
    the order in which they were created. *)
Definition JsObject : Type := list (string * list A).

(** lodash's [groupBy] accumulator step: push onto the array under [key]
    if the object already has that key, else create the property. *)
Fixpoint assignGroup (key : string) (value : A) (o : JsObject) : JsObject :=
  match o with
  | [] => [(key, [value])]
  | (k, vs) :: rest =>
      if String.eqb k key then (k, vs ++ [value]) :: rest
      else (k, vs) :: assignGroup key value rest
  end.

(** [_.groupBy(collection, iteratee)] *)
Definition groupBy (collection : list A) (iteratee : A -> string) : JsObject :=
  fold_left (fun o v => assignGroup (iteratee v) v o) collection [].

(** Stable insertion of [x] in front of a sorted list. *)
Fixpoint sortInsert {B : Type} (compareFn : B -> B -> Z) (x : B) (l : list B)
  : list B :=
  match l with
  | [] => [x]
  | y :: ys =>
      if Z.leb (compareFn x y) 0 then x :: y :: ys
      else y :: sortInsert compareFn x ys
  end.

(** [Array.prototype.sort(compareFn)]: a stable sort. *)
Definition Array_sort {B : Type} (compareFn : B -> B -> Z) (l : list B)
  : list B :=
  fold_right (sortInsert compareFn) [] l.
End Grouping.

(** Decimal digits. *)
Definition isDigit (c : ascii) : bool :=
  let n := N_of_ascii c in (N.leb 48 n && N.leb n 57)%bool.

Fixpoint digitsValue (acc : N) (s : string) : option N :=
  match s with
  | EmptyString => Some acc
  | String c rest =>
      if isDigit c then digitsValue (10 * acc + (N_of_ascii c - 48)) rest
      else None
  end.

(** A property key is an array index when it is the canonical decimal
    form of an integer in [0, 2^32 - 2]. *)
Definition arrayIndex (key : string) : option N :=
  match key with
  | EmptyString => None
  | String c rest =>
      if (Ascii.eqb c "0" && negb (String.eqb rest EmptyString))%bool then None
      else
        match digitsValue 0 key with
        | Some n => if N.leb n 4294967294 then Some n else None
        | None => None
        end
  end.

Definition isArrayIndex (key : string) : bool :=
  match arrayIndex key with Some _ => true | None => false end.

Definition indexOf (key : string) : N :=
  match arrayIndex key with Some n => n | None => 0%N end.

Section ObjectValues.
Context {A : Type}.

Definition compareIndex (p q : string * list A) : Z :=
  (Z.of_N (indexOf (fst p)) - Z.of_N (indexOf (fst q)))%Z.

(** The own property keys of an ordinary object are enumerated array
    indices first, in ascending numeric order, then the other string
    keys in creation order. *)
Definition ownProperties (o : @JsObject A) : @JsObject A :=
  Array_sort compareIndex (filter (fun p => isArrayIndex (fst p)) o)
  ++ filter (fun p => negb (isArrayIndex (fst p))) o.

(** [Object.values(o)] *)
Definition Object_values (o : @JsObject A) : list (list A) :=
  map snd (ownProperties o).
End ObjectValues.

(** [(a, b) => b.length - a.length] *)
Definition byLengthDesc {A : Type} (a b : list A) : Z :=
  (Z.of_nat (length b) - Z.of_nat (length a))%Z.

(* ================================================================== *)
(** * Async computations                                               *)
(* ================================================================== *)

(** An async function: from the state of the outside world to a settled
    promise and the new state of the world. A rejection keeps the effects
    that happened before it. *)
Definition M (W A : Type) : Type := W -> PromiseSettledResult A * W.

Definition ret {W A : Type} (a : A) : M W A := fun w => (Fulfilled a, w).

Definition throw {W A : Type} (e : Error) : M W A := fun w => (Rejected e, w).

(** [await m; k] *)
Definition bind {W A B : Type} (m : M W A) (k : A -> M W B) : M W B :=
  fun w =>
    match m w with
    | (Fulfilled a, w') => k a w'
    | (Rejected e, w') => (Rejected e, w')
    end.

(** [m.catch(handler)] *)
Definition catch {W A : Type} (m : M W A) (handler : Error -> M W A) : M W A :=
  fun w =>
    match m w with
    | (Fulfilled a, w') => (Fulfilled a, w')
    | (Rejected e, w') => handler e w'
    end.

(** One entry of [Promise.allSettled]: never rejects. *)
Definition settle {W A : Type} (m : M W A) : M W (PromiseSettledResult A) :=
  fun w => let (r, w') := m w in (Fulfilled r, w').

(** A call that only changes the world (logging, metrics). *)
Definition effect {W : Type} (f : W -> W) : M W unit :=
  fun w => (Fulfilled tt, f w).

Declare Scope async_scope.
Delimit Scope async_scope with async.
Notation "x <- m ;; k" := (bind m (fun x => k))
  (at level 61, m at next level, right associativity) : async_scope.
Notation "m ;; k" := (bind m (fun _ => k))
  (at level 61, right associativity) : async_scope.

Definition result_of {W A : Type} (m : M W A) (w : W) : PromiseSettledResult A :=
  fst (m w).

Definition world_after {W A : Type} (m : M W A) (w : W) : W := snd (m w).

(** [Promise.allSettled([a, b, c, d, e])]. The five branches work on
    different cache keys; the model runs them in array order. *)
Definition Promise_allSettled5 {W A B C D E : Type}
  (a : M W A) (b : M W B) (c : M W C) (d : M W D) (e : M W E)
  : M W (PromiseSettledResult A * PromiseSettledResult B * PromiseSettledResult C
         * PromiseSettledResult D * PromiseSettledResult E) :=
  (ra <- settle a ;;
   rb <- settle b ;;
   rc <- settle c ;;
   rd <- settle d ;;
   re <- settle e ;;
   ret (ra, rb, rc, rd, re))%async.

(* ================================================================== *)
(** * External collaborators                                           *)
(* ================================================================== *)

(** The type arguments at which the generic methods [get<T>], [set] and
    [lookupWithCache<T>] are instantiated: the two types [lookup] uses and
    [unknown], an untyped value. Type arguments are erased at run time, so
    a cache backend may hand back any value, also a falsy one. *)
Inductive TypeArg : Type :=
| Ip2LocationBundledResponseT
| LocationInfoT
| unknownT.

Definition El (t : TypeArg) : Type :=
  match t with
  | Ip2LocationBundledResponseT => Ip2LocationBundledResponse
  | LocationInfoT => LocationInfo
  | unknownT => jsval
  end.

#[export] Instance Truthy_El (t : TypeArg) : Truthy (El t) :=
  match t with
  | Ip2LocationBundledResponseT => Truthy_Ip2LocationBundledResponse
  | LocationInfoT => Truthy_LocationInfo
  | unknownT => Truthy_jsval
  end.

(** [CacheInterface]: [get<T>(key)] resolves to [T | undefined]; every
    operation may reject. *)
Record CacheInterface (W : Type) : Type := {
  cache_get : forall t : TypeArg, string -> M W (option (El t));
  cache_set : forall t : TypeArg, string -> El t -> Z -> M W unit;
  cache_delete : string -> M W unit;
}.
Arguments cache_get {W} _ t _.
Arguments cache_set {W} _ t _ _ _.
Arguments cache_delete {W} _ _.

(** What [client.ts] imports and does not define. The region resolver
    and the allowlist are pure lookups in tables loaded at start-up; the
    provider adapters are async functions. *)
Record Imports (W : Type) : Type := {
  (** [logger.error(message, ...)] *)
  logger_error : string -> W -> W;
  (** [newrelic.noticeError(error, ...)] *)
  newrelic_noticeError : Error -> W -> W;
  (** [Number(config.get('geoip.cache.ttl'))] *)
  geoip_cache_ttl : Z;
  (** Modelled from the spec: [getRegionByCountry] is missing from the
      sources; the region resolver is a pure, total mapping from a
      country code to a region name. *)
  getRegionByCountry : string -> string;
  (** Modelled from the spec: [normalizeRegionName] is missing from the
      sources; it yields the normalized form of a region name. *)
  normalizeRegionName : string -> string;
  (** Modelled from the spec: [isAddrWhitelisted] is missing from the
      sources; it is a membership test in a set loaded at start-up. *)
  isAddrWhitelisted : string -> bool;
  ip2LocationLookup : string -> M W Ip2LocationBundledResponse;
  ipmapLookup : string -> M W LocationInfo;
  maxmindLookup : string -> M W LocationInfo;
  ipinfoLookup : string -> M W LocationInfo;
  fastlyLookup : string -> M W LocationInfo;
}.
Arguments logger_error {W} _ _ _.
Arguments newrelic_noticeError {W} _ _ _.
Arguments geoip_cache_ttl {W} _.
Arguments getRegionByCountry {W} _ _.
Arguments normalizeRegionName {W} _ _.
Arguments isAddrWhitelisted {W} _ _.
Arguments ip2LocationLookup {W} _ _.
Arguments ipmapLookup {W} _ _.
Arguments maxmindLookup {W} _ _.
Arguments ipinfoLookup {W} _ _.
Arguments fastlyLookup {W} _ _.

(** What [Promise.allSettled] resolves to in [lookup]. *)
Definition SettledQueries : Type :=
  PromiseSettledResult Ip2LocationBundledResponse
  * PromiseSettledResult LocationInfo
  * PromiseSettledResult LocationInfo
  * PromiseSettledResult LocationInfo
  * PromiseSettledResult LocationInfo.

(** A key of [LocationInfo] whose value is a string: its name and the
    property read [s[field]]. *)
Record Field : Type := {
  field_name : string;
  field_get : LocationInfo -> string;
}.

Definition normalizedCityField : Field :=
  {| field_name := "normalizedCity"; field_get := normalizedCity |}.

(** [array.filter(Boolean).flat()] on an array of objects and [null]s. *)
Fixpoint filterBoolean {A : Type} (l : list (option A)) : list A :=
  match l with
  | [] => []
  | Some a :: rest => a :: filterBoolean rest
  | None :: rest => filterBoolean rest
  end.

Definition vpnDetected : Error := InternalError "vpn detected" true.

Definition unresolvable (addr : string) : Error :=
  InternalError ("unresolvable geoip: " ++ addr) true.

(** The double quote character, as a string. *)
Definition dquote : string := String (ascii_of_nat 34) EmptyString.

Definition noCorrectValue (field : Field) : Error :=
  PlainError ("failed to find a correct value for a field "
              ++ dquote ++ field_name field ++ dquote).

(* ================================================================== *)
(** * class GeoipClient                                                *)
(* ================================================================== *)

Section GeoipClient.
Context {W : Type}.
(** [private readonly cache: CacheInterface] *)
Variable cache : CacheInterface W.
Variable imports : Imports W.

Local Open Scope async_scope.

(** [public async lookupWithCache<T>(key, fn)] *)
Definition lookupWithCache (T : TypeArg) (key : string) (fn : M W (El T))
  : M W (El T) :=
  cached <- catch (cache_get cache T key)
              (fun error =>
                 effect (logger_error imports
                           "Failed to get cached geoip info for probe.") ;;
                 effect (newrelic_noticeError imports error) ;;
                 ret None) ;;
  let miss : M W (El T) :=
    info <- fn ;;
    let ttl := geoip_cache_ttl imports in
    catch (cache_set cache T key info ttl)
      (fun error =>
         effect (logger_error imports "Failed to cache geoip info for probe.") ;;
         effect (newrelic_noticeError imports error) ;;
         ret tt) ;;
    ret info in
  (* [if (cached) return cached;] where [cached : T | undefined] *)
  match cached with
  | Some value => if truthy value then ret value else miss
  | None => miss
  end.

(** [private matchRegion(best)] *)
Definition matchRegion (best : LocationInfo) : RegionInfo :=
  let region := getRegionByCountry imports (country best) in
  {| region := region;
     normalizedRegion := normalizeRegionName imports region |}.

(** The object literal [{ asn, network, normalizedNetwork }] built from
    a source. *)
Definition networkOf (source : LocationInfo) : NetworkInfo :=
  {| ni_asn := asn source;
     ni_network := network source;
     ni_normalizedNetwork := normalizedNetwork source |}.

(** The [for (const source of rankedSources)] loop of [matchNetwork]. *)
Fixpoint matchNetworkLoop (best : LocationInfo)
  (rankedSources : list LocationInfoWithProvider) : option NetworkInfo :=
  match rankedSources with
  | [] => None
  | source :: rest =>
      if (String.eqb (normalizedCity source) (normalizedCity best)
          && truthy (asn source) && truthy (network source))%bool
      then Some (networkOf source)
      else matchNetworkLoop best rest
  end.

(** [private matchNetwork(best, rankedSources)]; [None] is [undefined]. *)
Definition matchNetwork (best : LocationInfo)
  (rankedSources : list LocationInfoWithProvider) : option NetworkInfo :=
  if (truthy (asn best) && truthy (network best))%bool
  then Some (networkOf best)
  else matchNetworkLoop best rankedSources.

(** The first three statements of [bestMatch]: filter, group, rank. *)
Definition rankSources (field : Field) (sources : list LocationInfoWithProvider)
  : list LocationInfoWithProvider :=
  let filtered :=
    filter (fun s : LocationInfoWithProvider => truthy (field_get field s))
      sources in
  let grouped :=
    Object_values
      (groupBy filtered (fun s : LocationInfoWithProvider => field_get field s)) in
  concat (Array_sort byLengthDesc grouped).

(** [private bestMatch(field, sources)] *)
Definition bestMatch (field : Field) (sources : list LocationInfoWithProvider)
  : M W (LocationInfo * list LocationInfoWithProvider) :=
  let ranked := rankSources field sources in
  match ranked with
  | [] =>
      effect (logger_error imports (error_message (noCorrectValue field))) ;;
      throw (noCorrectValue field)
  | best :: _ =>
      if Provider_eqb (provider best) fastly
      then effect (logger_error imports (error_message (noCorrectValue field))) ;;
           throw (noCorrectValue field)
      else
        let match_ := location best in
        ret (match_, ranked)
  end.

(** The array [fulfilled] after the [push]: one entry per provider, in
    descending priority order, [null] for a provider that failed. *)
Definition fulfilledProviders (settled : SettledQueries)
  : list (option LocationInfoWithProvider) :=
  let '(ip2location_, ipmap_, maxmind_, ipinfo_, fastly_) := settled in
  [ match ip2location_ with
    | Fulfilled value => Some (withProvider (bundled_location value) ip2location)
    | Rejected _ => None
    end;
    match ipmap_ with
    | Fulfilled value => Some (withProvider value ipmap)
    | Rejected _ => None
    end;
    match maxmind_ with
    | Fulfilled value => Some (withProvider value maxmind)
    | Rejected _ => None
    end;
    match ipinfo_ with
    | Fulfilled value => Some (withProvider value ipinfo)
    | Rejected _ => None
    end;
    match fastly_ with
    | Fulfilled value => Some (withProvider value fastly)
    | Rejected _ => None
    end ].

(** [ip2location.status === 'fulfilled' && ip2location.value.isProxy
     && !isAddrWhitelisted(addr)] *)
Definition vpnGate (addr : string) (settled : SettledQueries) : bool :=
  let '(ip2location_, _, _, _, _) := settled in
  (match ip2location_ with
   | Fulfilled value => isProxy value
   | Rejected _ => false
   end && negb (isAddrWhitelisted imports addr))%bool.

(** [fulfilled.filter(Boolean).flat()]: the candidate list. *)
Definition candidates (settled : SettledQueries) : list LocationInfoWithProvider :=
  filterBoolean (fulfilledProviders settled).

(** The callback given to [.then] after [Promise.allSettled]. *)
Definition collectFulfilled (addr : string) (settled : SettledQueries)
  : M W (list LocationInfoWithProvider) :=
  if vpnGate addr settled
  then throw vpnDetected
  else ret (candidates settled).

(** The five cache-aside provider queries of [lookup]. *)
Definition providerQueries (addr : string) : M W SettledQueries :=
  Promise_allSettled5
    (lookupWithCache Ip2LocationBundledResponseT ("geoip:ip2location:" ++ addr)
       (ip2LocationLookup imports addr))
    (lookupWithCache LocationInfoT ("geoip:ipmap:" ++ addr)
       (ipmapLookup imports addr))
    (lookupWithCache LocationInfoT ("geoip:maxmind:" ++ addr)
       (maxmindLookup imports addr))
    (lookupWithCache LocationInfoT ("geoip:ipinfo:" ++ addr)
       (ipinfoLookup imports addr))
    (lookupWithCache LocationInfoT ("geoip:fastly:" ++ addr)
       (fastlyLookup imports addr)).

(** [resultsWithCities.length === 0 ||
     (resultsWithCities.length === 1 && resultsWithCities[0]?.provider === 'fastly')] *)
Definition noTrustedCity (resultsWithCities : list LocationInfoWithProvider)
  : bool :=
  (Nat.eqb (length resultsWithCities) 0
   || (Nat.eqb (length resultsWithCities) 1
       && match nth_error resultsWithCities 0 with
          | Some first => Provider_eqb (provider first) fastly
          | None => false
          end))%bool.

(** The object literal [lookup] returns. *)
Definition probeLocation (match_ : LocationInfo) (networkMatch : NetworkInfo)
  (region_ : RegionInfo) : ProbeLocation.t :=
  {| ProbeLocation.continent := continent match_;
     ProbeLocation.country := country match_;
     ProbeLocation.state := state match_;
     ProbeLocation.city := city match_;
     ProbeLocation.region := region region_;
     ProbeLocation.normalizedRegion := normalizedRegion region_;
     ProbeLocation.normalizedCity := normalizedCity match_;
     ProbeLocation.asn := ni_asn networkMatch;
     ProbeLocation.latitude := latitude match_;
     ProbeLocation.longitude := longitude match_;
     ProbeLocation.network := ni_network networkMatch;
     ProbeLocation.normalizedNetwork := ni_normalizedNetwork networkMatch |}.

(** [const resultsWithCities = results.filter(s => s.city)] *)
Definition withCities (results : list LocationInfoWithProvider)
  : list LocationInfoWithProvider :=
  filter (fun s : LocationInfoWithProvider => truthy (city s)) results.

(** [lookup] from the candidate list on: everything after the
    [await] of the settled provider queries. *)
Definition resolve (addr : string) (results : list LocationInfoWithProvider)
  : M W ProbeLocation.t :=
  let resultsWithCities := withCities results in
  if noTrustedCity resultsWithCities
  then throw (unresolvable addr)
  else
    r <- bestMatch normalizedCityField results ;;
    let '(match_, ranked) := r in
    let networkMatch := matchNetwork match_ ranked in
    match networkMatch with
    | None => throw (unresolvable addr)
    | Some networkMatch =>
        let region_ := matchRegion match_ in
        ret (probeLocation match_ networkMatch region_)
    end.

(** [async lookup(addr)] *)
Definition lookup (addr : string) : M W ProbeLocation.t :=
  settled <- providerQueries addr ;;
  results <- collectFulfilled addr settled ;;
  resolve addr results.
End GeoipClient.

(* ================================================================== *)
(** * Presence predicates of the result                                *)
(* ================================================================== *)



(* ================================================================== *)
(** * Vocabulary of the vote                                           *)
(* ================================================================== *)

Section VoteVocabulary.
Context {A : Type}.
Variable key : A -> string.

(** The members of the group of [k]: the elements whose key is [k], in
    scan order. *)
Definition members (k : string) (l : list A) : list A :=
  filter (fun x => String.eqb (key x) k) l.

(** The distinct keys of a list, in the order in which each was first
    seen. *)
Definition addKey (k : string) (ks : list string) : list string :=
  if existsb (String.eqb k) ks then ks else ks ++ [k].

Definition firstSeenKeys (l : list A) : list string :=
  fold_left (fun ks x => addKey (key x) ks) l [].

(** Group by key, sort the groups by descending size, flatten. *)
Definition ranking (l : list A) : list A :=
  concat (Array_sort byLengthDesc (Object_values (groupBy l key))).
End VoteVocabulary.

(** [l.length === 0] *)
Definition isNil {A : Type} (l : list A) : bool :=
  match l with [] => true | _ :: _ => false end.

(** The candidates that take part in the vote on [field]: those whose
    value of [field] is truthy. *)
Definition voters (field : Field) (sources : list LocationInfoWithProvider)
  : list LocationInfoWithProvider :=
  filter (fun s : LocationInfoWithProvider => truthy (field_get field s)) sources.

(** The key under which a candidate is grouped. *)
Definition groupKey (field : Field) (s : LocationInfoWithProvider) : string :=
  field_get field s.

(** Scan order puts fastly last: no candidate from fastly is followed by
    another candidate. *)
Fixpoint fastlyOnlyLast (l : list LocationInfoWithProvider) : bool :=
  match l with
  | [] => true
  | x :: rest =>
      match rest with
      | [] => true
      | _ :: _ => (negb (Provider_eqb (provider x) fastly) && fastlyOnlyLast rest)%bool
      end
  end.

(** The order in which [lookup] pushes the providers. *)
Definition priorityOrder : list Provider :=
  [ip2location; ipmap; maxmind; ipinfo; fastly].

(** [l] can be obtained from [full] by dropping elements. *)
Fixpoint isSubsequence (l full : list Provider) : bool :=
  match l, full with
  | [], _ => true
  | _ :: _, [] => false
  | x :: l', y :: full' =>
      if Provider_eqb x y then isSubsequence l' full'
      else isSubsequence l full'
  end.

(** How many of the five provider queries were fulfilled. *)
Definition isFulfilled {A : Type} (r : PromiseSettledResult A) : bool :=
  match r with Fulfilled _ => true | Rejected _ => false end.

Definition fulfilledCount (settled : SettledQueries) : nat :=
  let '(a, b, c, d, e) := settled in
  Nat.b2n (isFulfilled a) + Nat.b2n (isFulfilled b) + Nat.b2n (isFulfilled c)
  + Nat.b2n (isFulfilled d) + Nat.b2n (isFulfilled e).

(** Every candidate has a city exactly when it has a normalized city. *)
Definition citiesConsistent (results : list LocationInfoWithProvider) : Prop :=
  forall x : LocationInfoWithProvider,
    In x results -> (city x = EmptyString <-> normalizedCity x = EmptyString).

(** No candidate's normalized city is an array index. *)
Definition noIndexCity (results : list LocationInfoWithProvider) : Prop :=
  forall x : LocationInfoWithProvider,
    In x results -> isArrayIndex (normalizedCity x) = false.

(** A candidate carries network data: a non-zero ASN and a non-empty
    network name. *)
Definition hasNetwork (s : LocationInfo) : Prop :=
  asn s <> 0%Z /\ network s <> EmptyString.

(** A candidate can repair the network of [winner]: same normalized city
    and network data of its own. *)
Definition repairs (winner : LocationInfo) (s : LocationInfo) : Prop :=
  normalizedCity s = normalizedCity winner /\ hasNetwork s.

(* ================================================================== *)
(** * Vocabulary of the cache-aside wrapper                            *)
(* ================================================================== *)

Section CacheVocabulary.
Context {W : Type}.
Variable cache : CacheInterface W.
Variable imports : Imports W.

(** What the two [.catch] handlers of [lookupWithCache] do to the
    world. *)
Definition afterGetFailure (error : Error) (w : W) : W :=
  newrelic_noticeError imports error
    (logger_error imports "Failed to get cached geoip info for probe." w).

Definition afterSetFailure (error : Error) (w : W) : W :=
  newrelic_noticeError imports error
    (logger_error imports "Failed to cache geoip info for probe." w).

(** The world after [await this.cache.set(key, info, ttl).catch(...)]. *)
Definition writeBack (T : TypeArg) (key : string) (info : El T) (w : W) : W :=
  match cache_set cache T key info (geoip_cache_ttl imports) w with
  | (Fulfilled _, w') => w'
  | (Rejected error, w') => afterSetFailure error w'
  end.

(** The miss path of [lookupWithCache], started in world [w]. *)
Definition missPath (T : TypeArg) (key : string) (fn : M W (El T)) (w : W)
  : PromiseSettledResult (El T) * W :=
  match fn w with
  | (Fulfilled info, w') => (Fulfilled info, writeBack T key info w')
  | (Rejected error, w') => (Rejected error, w')
  end.

(** A cache that never hits: every read rejects or yields a falsy
    value. *)
Definition neverHits : Prop :=
  forall (T : TypeArg) (key : string) (w : W),
    match fst (cache_get cache T key w) with
    | Fulfilled cached => truthy cached = false
    | Rejected _ => True
    end.

(** A cache whose every operation rejects. *)
Definition allOperationsFail : Prop :=
  (forall (T : TypeArg) (key : string) (w : W),
      exists error, fst (cache_get cache T key w) = Rejected error)
  /\ (forall (T : TypeArg) (key : string) (info : El T) (ttl : Z) (w : W),
         exists error, fst (cache_set cache T key info ttl w) = Rejected error)
  /\ (forall (key : string) (w : W),
         exists error, fst (cache_delete cache key w) = Rejected error).

(** The five adapters settle the same way in every world. *)
Definition adaptersSettleAs (addr : string) (settled : SettledQueries) : Prop :=
  let '(ip2location_, ipmap_, maxmind_, ipinfo_, fastly_) := settled in
  (forall w, result_of (ip2LocationLookup imports addr) w = ip2location_)
  /\ (forall w, result_of (ipmapLookup imports addr) w = ipmap_)
  /\ (forall w, result_of (maxmindLookup imports addr) w = maxmind_)
  /\ (forall w, result_of (ipinfoLookup imports addr) w = ipinfo_)
  /\ (forall w, result_of (fastlyLookup imports addr) w = fastly_).

(** What [lookup] computes from the settled provider queries. *)
Definition consensus (addr : string) (settled : SettledQueries)
  : M W ProbeLocation.t :=
  bind (collectFulfilled imports addr settled) (resolve imports addr).
End CacheVocabulary.

(* ================================================================== *)
(** * Cache keys                                                       *)
(* ================================================================== *)

(** The provider's name as it appears in the cache key. *)
Definition providerName (p : Provider) : string :=
  match p with
  | ip2location => "ip2location"
  | ipmap => "ipmap"
  | maxmind => "maxmind"
  | ipinfo => "ipinfo"
  | fastly => "fastly"
  end.

(** [`geoip:${provider}:${addr}`] *)
Definition cacheKey (p : Provider) (addr : string) : string :=
  "geoip:" ++ providerName p ++ ":" ++ addr.

(** The cache holds a value for each of the five keys of [addr], and
    reading it changes nothing. *)
Definition cacheHolds {W : Type} (cache : CacheInterface W) (addr : string)
  (v1 : Ip2LocationBundledResponse) (v2 v3 v4 v5 : LocationInfo) : Prop :=
  (forall w, cache_get cache Ip2LocationBundledResponseT (cacheKey ip2location addr) w
             = (Fulfilled (Some v1), w))
  /\ (forall w, cache_get cache LocationInfoT (cacheKey ipmap addr) w
                = (Fulfilled (Some v2), w))
  /\ (forall w, cache_get cache LocationInfoT (cacheKey maxmind addr) w
                = (Fulfilled (Some v3), w))
  /\ (forall w, cache_get cache LocationInfoT (cacheKey ipinfo addr) w
                = (Fulfilled (Some v4), w))
  /\ (forall w, cache_get cache LocationInfoT (cacheKey fastly addr) w
                = (Fulfilled (Some v5), w)).

(* ================================================================== *)
(** * providers/ipmap.ts                                               *)
(* ================================================================== *)

(** One entry of [IpmapResponse.locations]; every property is optional. *)
Module IpmapLocation.
Record t : Type := {
  cityName : option string;
  stateAnsiCode : option string;
  countryCodeAlpha2 : option string;
  latitude : option string;
  longitude : option string;
}.
End IpmapLocation.

Module Ipmap.
(** [IpmapResponse]; [locations] may be missing from the payload. *)
Record IpmapResponse : Type := {
  locations : option (list IpmapLocation.t);
}.

(** The empty object [{}]. *)
Definition emptyObject : IpmapLocation.t :=
  {| IpmapLocation.cityName := None;
     IpmapLocation.stateAnsiCode := None;
     IpmapLocation.countryCodeAlpha2 := None;
     IpmapLocation.latitude := None;
     IpmapLocation.longitude := None |}.

(** [result?.locations?.[0]], with [None] for [undefined]; [result] is
    [None] when the payload is [null]. *)
Definition firstLocation (result : option IpmapResponse) : option IpmapLocation.t :=
  match result with
  | None => None
  | Some r =>
      match locations r with
      | None => None
      | Some l => nth_error l 0
      end
  end.

(** [a ?? b] *)
Definition orElse {A : Type} (a : option A) (b : A) : A :=
  match a with Some v => v | None => b end.

Section Lookup.
Context {W : Type}.
(** [got.get(url).json<IpmapResponse>()] *)
Variable got_get_json : string -> M W (option IpmapResponse).
(** [getContinentByCountry], missing from the sources; it may throw. *)
Variable getContinentByCountry : string -> PromiseSettledResult string.
(** [normalizeCityName], [normalizeCityNamePublic], missing from the
    sources. *)
Variable normalizeCityName : string -> string.
Variable normalizeCityNamePublic : string -> string.
(** [Number(s)] for a string [s]. *)
Variable numberOfString : string -> float.

(** [Number(v)] for [v : string | undefined]; [Number(undefined)] is
    [NaN]. *)
Definition Number_ (v : option string) : float :=
  match v with
  | Some s => numberOfString s
  | None => nan
  end.

(** [const location = result?.locations?.[0] || {}] *)
Definition locationOf (result : option IpmapResponse) : IpmapLocation.t :=
  match firstLocation result with
  | Some location => location
  | None => emptyObject
  end.

(** [export const ipmapLookup = async (addr)] *)
Definition ipmapLookup (addr : string) : M W LocationInfo :=
  (result <- got_get_json ("https://ipmap-api.ripe.net/v1/locate/" ++ addr) ;;
   let location := locationOf result in
   continent_ <-
     (if truthy (IpmapLocation.countryCodeAlpha2 location)
      then match getContinentByCountry
                   (orElse (IpmapLocation.countryCodeAlpha2 location) EmptyString) with
           | Fulfilled c => ret c
           | Rejected error => throw error
           end
      else ret EmptyString) ;;
   ret {| continent := continent_;
          state :=
            match IpmapLocation.countryCodeAlpha2 location with
            | Some cc =>
                if String.eqb cc "US" then IpmapLocation.stateAnsiCode location
                else None
            | None => None
            end;
          country := orElse (IpmapLocation.countryCodeAlpha2 location) EmptyString;
          city := normalizeCityNamePublic
                    (orElse (IpmapLocation.cityName location) EmptyString);
          normalizedCity := normalizeCityName
                              (orElse (IpmapLocation.cityName location) EmptyString);
          asn := 0;
          (* [Number(...)] is never null or undefined: [?? 0] keeps it *)
          latitude := orElse (Some (Number_ (IpmapLocation.latitude location)))
                        0%float;
          longitude := orElse (Some (Number_ (IpmapLocation.longitude location)))
                         0%float;
          network := EmptyString;
          normalizedNetwork := EmptyString |})%async.
End Lookup.
End Ipmap.

(* ================================================================== *)
(** * Test fixtures                                                    *)
(* ================================================================== *)

Module Fixtures.
(** The world of the tests: the lines written by the logger and the
    metrics agent. *)
Definition World : Type := list string.

(** [NullCache] of the unit tests: holds nothing, stores nothing. *)
Definition NullCache : CacheInterface World :=
  {| cache_get := fun t _ => ret None;
     cache_set := fun t _ _ _ => ret tt;
     cache_delete := fun _ => ret tt |}.

(** [BrokenCache] of the unit tests: every operation rejects. *)
Definition BrokenCache : CacheInterface World :=
  {| cache_get := fun t _ => throw (PlainError "get is broken");
     cache_set := fun t _ _ _ => throw (PlainError "set is broken");
     cache_delete := fun _ => throw (PlainError "delete is broken") |}.

(** A backend that answers every untyped read with the number 0 and
    counts its writes in the log. *)
Definition ZeroCache : CacheInterface World :=
  {| cache_get := fun t _ =>
       match t return M World (option (El t)) with
       | unknownT => ret (Some (JNum 0))
       | _ => ret None
       end;
     cache_set := fun t key _ _ => effect (fun log => ("set " ++ key)%string :: log);
     cache_delete := fun _ => ret tt |}.

Definition MOCK_IP : string := "131.255.7.26".

Definition regionOf (country : string) : string :=
  if String.eqb country "US" then "Northern America"
  else if String.eqb country "AR" then "South America"
  else if String.eqb country "BR" then "South America"
  else "Unknown".

Definition lowerRegion (region : string) : string :=
  if String.eqb region "Northern America" then "northern america"
  else if String.eqb region "South America" then "south america"
  else "unknown".

Definition dallas (asn : Z) (network : string) : LocationInfo :=
  {| continent := "NA"; country := "US"; state := Some "TX";
     city := "Dallas"; normalizedCity := "dallas"; asn := asn;
     latitude := 32.5%float; longitude := (-96.25)%float;
     network := network; normalizedNetwork := network |}.

Definition buenosAires (asn : Z) (network : string) : LocationInfo :=
  {| continent := "SA"; country := "AR"; state := None;
     city := "Buenos Aires"; normalizedCity := "buenos aires"; asn := asn;
     latitude := (-34.5)%float; longitude := (-58.25)%float;
     network := network; normalizedNetwork := network |}.

Definition newYork (asn : Z) (network : string) : LocationInfo :=
  {| continent := "NA"; country := "US"; state := Some "NY";
     city := "New York"; normalizedCity := "new york"; asn := asn;
     latitude := 40.5%float; longitude := (-74.25)%float;
     network := network; normalizedNetwork := network |}.

(** A town whose name is a number. *)
Definition seventeenSeventy (asn : Z) (network : string) : LocationInfo :=
  {| continent := "OC"; country := "AU"; state := None;
     city := "1770"; normalizedCity := "1770"; asn := asn;
     latitude := (-24.25)%float; longitude := 151.75%float;
     network := network; normalizedNetwork := network |}.

(** A record with no city and no normalized city. *)
Definition emptyCity (asn : Z) (network : string) : LocationInfo :=
  {| continent := "NA"; country := "US"; state := Some "TX";
     city := EmptyString; normalizedCity := EmptyString; asn := asn;
     latitude := 32.5%float; longitude := (-96.25)%float;
     network := network; normalizedNetwork := network |}.

Definition bundle (l : LocationInfo) (proxy : bool) : Ip2LocationBundledResponse :=
  {| bundled_location := l; isProxy := proxy |}.

Definition down {A : Type} : M World A :=
  throw (PlainError "Response code 400 (Bad Request)").

(** The imports of a test run: the five nocked providers and the
    content of the allowlist file. *)
Definition nock (whitelist : list string)
  (ip2location_ : M World Ip2LocationBundledResponse)
  (ipmap_ maxmind_ ipinfo_ fastly_ : M World LocationInfo) : Imports World :=
  {| logger_error := fun message log => message :: log;
     newrelic_noticeError := fun error log => error_message error :: log;
     geoip_cache_ttl := 259200;
     getRegionByCountry := regionOf;
     normalizeRegionName := lowerRegion;
     isAddrWhitelisted := fun addr => existsb (String.eqb addr) whitelist;
     ip2LocationLookup := fun _ => ip2location_;
     ipmapLookup := fun _ => ipmap_;
     maxmindLookup := fun _ => maxmind_;
     ipinfoLookup := fun _ => ipinfo_;
     fastlyLookup := fun _ => fastly_ |}.

(** Every provider answers Dallas; ipmap never has network data. *)
Definition dallasRun (whitelist : list string) (proxy : bool) : Imports World :=
  nock whitelist
    (ret (bundle (dallas 20001 "The Constant Company LLC") proxy))
    (ret (dallas 0 EmptyString))
    (ret (dallas 20003 "psychz networks"))
    (ret (dallas 20004 "Psychz Networks"))
    (ret (dallas 20005 "psychz networks")).

Definition dallasSettled (proxy : bool) : SettledQueries :=
  (Fulfilled (bundle (dallas 20001 "The Constant Company LLC") proxy),
   Fulfilled (dallas 0 EmptyString),
   Fulfilled (dallas 20003 "psychz networks"),
   Fulfilled (dallas 20004 "Psychz Networks"),
   Fulfilled (dallas 20005 "psychz networks")).

(** Only fastly is up. *)
Definition onlyFastlyRun : Imports World :=
  nock [] down down down down (ret (dallas 20005 "psychz networks")).

Definition onlyFastlySettled : SettledQueries :=
  (Rejected (PlainError "Response code 400 (Bad Request)"),
   Rejected (PlainError "Response code 400 (Bad Request)"),
   Rejected (PlainError "Response code 400 (Bad Request)"),
   Rejected (PlainError "Response code 400 (Bad Request)"),
   Fulfilled (dallas 20005 "psychz networks")).

(** ip2location and ipmap say Dallas, the other three Buenos Aires. *)
Definition majoritySettled : SettledQueries :=
  (Fulfilled (bundle (dallas 20001 "The Constant Company LLC") false),
   Fulfilled (dallas 0 EmptyString),
   Fulfilled (buenosAires 61003 "interbs s.r.l."),
   Fulfilled (buenosAires 61004 "interbs s.r.l. (baehost)"),
   Fulfilled (buenosAires 61005 "interbs s.r.l.")).

Definition majorityRun : Imports World :=
  nock []
    (ret (bundle (dallas 20001 "The Constant Company LLC") false))
    (ret (dallas 0 EmptyString))
    (ret (buenosAires 61003 "interbs s.r.l."))
    (ret (buenosAires 61004 "interbs s.r.l. (baehost)"))
    (ret (buenosAires 61005 "interbs s.r.l.")).

(** ipmap and fastly say Dallas, ip2location Buenos Aires, maxmind New
    York, ipinfo has no city. *)
Definition repairSettled : SettledQueries :=
  (Fulfilled (bundle (buenosAires 61001 "interbs s.r.l.") false),
   Fulfilled (dallas 0 EmptyString),
   Fulfilled (newYork 80003 "the constant company llc"),
   Fulfilled (emptyCity 20004 "psychz networks"),
   Fulfilled (dallas 20005 "psychz networks")).

Definition repairRun : Imports World :=
  nock []
    (ret (bundle (buenosAires 61001 "interbs s.r.l.") false))
    (ret (dallas 0 EmptyString))
    (ret (newYork 80003 "the constant company llc"))
    (ret (emptyCity 20004 "psychz networks"))
    (ret (dallas 20005 "psychz networks")).

(** A record with a display city and no normalized city. *)
Definition cityOnly : LocationInfo :=
  {| continent := "NA"; country := "US"; state := Some "TX";
     city := "Dallas"; normalizedCity := EmptyString; asn := 20001;
     latitude := 32.5%float; longitude := (-96.25)%float;
     network := "The Constant Company LLC";
     normalizedNetwork := "the constant company llc" |}.

Definition cityOnlySettled : SettledQueries :=
  (Fulfilled (bundle cityOnly false),
   Rejected (PlainError "Response code 400 (Bad Request)"),
   Rejected (PlainError "Response code 400 (Bad Request)"),
   Rejected (PlainError "Response code 400 (Bad Request)"),
   Rejected (PlainError "Response code 400 (Bad Request)")).

Definition cityOnlyRun : Imports World :=
  nock [] (ret (bundle cityOnly false)) down down down down.



(** ip2location says Dallas, ipmap says 1770; the others are down. *)
Definition numericTieSettled : SettledQueries :=
  (Fulfilled (bundle (dallas 20001 "The Constant Company LLC") false),
   Fulfilled (seventeenSeventy 0 EmptyString),
   Rejected (PlainError "Response code 400 (Bad Request)"),
   Rejected (PlainError "Response code 400 (Bad Request)"),
   Rejected (PlainError "Response code 400 (Bad Request)")).

Definition numericTieRun : Imports World :=
  nock []
    (ret (bundle (dallas 20001 "The Constant Company LLC") false))
    (ret (seventeenSeventy 0 EmptyString))
    down down down.

(** A backend that holds a Dallas record under every key. *)
Definition WarmCache : CacheInterface World :=
  {| cache_get := fun t _ =>
       match t return M World (option (El t)) with
       | Ip2LocationBundledResponseT =>
           ret (Some (bundle (dallas 20001 "The Constant Company LLC") false))
       | LocationInfoT => ret (Some (dallas 20003 "psychz networks"))
       | unknownT => ret None
       end;
     cache_set := fun t key _ _ => effect (fun log => ("set " ++ key)%string :: log);
     cache_delete := fun _ => ret tt |}.

(** The RIPE ipmap payload of the unit tests. *)
Definition ipmapDallas : Ipmap.IpmapResponse :=
  {| Ipmap.locations :=
       Some [ {| IpmapLocation.cityName := Some "Dallas";
                 IpmapLocation.stateAnsiCode := Some "TX";
                 IpmapLocation.countryCodeAlpha2 := Some "US";
                 IpmapLocation.latitude := Some "32.5";
                 IpmapLocation.longitude := Some "-96.25" |} ] |}.

(** A payload with no location. *)
Definition ipmapNothing : Ipmap.IpmapResponse :=
  {| Ipmap.locations := Some [] |}.

Definition continentOf (country : string) : PromiseSettledResult string :=
  if String.eqb country "US" then Fulfilled "NA"
  else if String.eqb country "AR" then Fulfilled "SA"
  else Rejected (PlainError "country information not found").

Definition lowerCity (name : string) : string :=
  if String.eqb name "Dallas" then "dallas" else name.

Definition parseNumber (s : string) : float :=
  if String.eqb s "32.5" then 32.5%float
  else if String.eqb s "-96.25" then (-96.25)%float
  else nan.

(** [ipmapLookup] over a fixed payload. *)
Definition ipmapOver (payload : Ipmap.IpmapResponse) (addr : string)
  : M World LocationInfo :=
  Ipmap.ipmapLookup (fun _ => ret (Some payload)) continentOf lowerCity
    (fun name => name) parseNumber addr.

(** ipmap and maxmind say Dallas; ipmap is the adapter of
    [providers/ipmap.ts]. *)
Definition ipmapRun : Imports World :=
  nock [] down (ipmapOver ipmapDallas MOCK_IP)
    (ret (dallas 20003 "psychz networks")) down down.

(** ip2location answers without a city, fastly with Dallas; the others
    are down. *)
Definition cityLessAndFastlySettled : SettledQueries :=
  (Fulfilled (bundle (emptyCity 20001 "The Constant Company LLC") false),
   Rejected (PlainError "Response code 400 (Bad Request)"),
   Rejected (PlainError "Response code 400 (Bad Request)"),
   Rejected (PlainError "Response code 400 (Bad Request)"),
   Fulfilled (dallas 20005 "psychz networks")).

Definition cityLessAndFastlyRun : Imports World :=
  nock []
    (ret (bundle (emptyCity 20001 "The Constant Company LLC") false))
    down down down
    (ret (dallas 20005 "psychz networks")).
End Fixtures.

(* ================================================================== *)
(** * How [lookup] runs                                                *)
(* ================================================================== *)

Section Running.
Context {W : Type}.
Variable cache : CacheInterface W.
Variable imports : Imports W.

(** [Promise.allSettled] always resolves. *)
Lemma providerQueries_settles (addr : string) (w : W) :
  exists settled w',
    providerQueries cache imports addr w = (Fulfilled settled, w').
Proof.
  unfold providerQueries, Promise_allSettled5, bind, settle, ret.
  repeat match goal with
         | |- context [lookupWithCache ?c ?i ?t ?k ?f ?x] =>
             destruct (lookupWithCache c i t k f x) as [? ?]
         end.
  eauto.
Qed.

Lemma lookup_after_queries (addr : string) (w w' : W) (settled : SettledQueries) :
  providerQueries cache imports addr w = (Fulfilled settled, w') ->
  lookup cache imports addr w
  = bind (collectFulfilled imports addr settled) (resolve imports addr) w'.
Proof.
  intros Hq. unfold lookup. unfold bind at 1. rewrite Hq. reflexivity.
Qed.

Lemma lookup_gate_closed (addr : string) (w w' : W) (settled : SettledQueries) :
  providerQueries cache imports addr w = (Fulfilled settled, w') ->
  vpnGate imports addr settled = true ->
  lookup cache imports addr w = (Rejected vpnDetected, w').
Proof.
  intros Hq Hg. rewrite (lookup_after_queries _ _ _ _ Hq).
  unfold bind, collectFulfilled. rewrite Hg. reflexivity.
Qed.

Lemma lookup_gate_open (addr : string) (w w' : W) (settled : SettledQueries) :
  providerQueries cache imports addr w = (Fulfilled settled, w') ->
  vpnGate imports addr settled = false ->
  lookup cache imports addr w = resolve imports addr (candidates settled) w'.
Proof.
  intros Hq Hg. rewrite (lookup_after_queries _ _ _ _ Hq).
  unfold bind, collectFulfilled. rewrite Hg. reflexivity.
Qed.

(** [bestMatch], step by step. *)
Lemma bestMatch_eq (field : Field) (sources : list LocationInfoWithProvider) (w : W) :
  bestMatch imports field sources w
  = match rankSources field sources with
    | [] => (Rejected (noCorrectValue field),
             logger_error imports (error_message (noCorrectValue field)) w)
    | best :: _ =>
        if Provider_eqb (provider best) fastly
        then (Rejected (noCorrectValue field),
              logger_error imports (error_message (noCorrectValue field)) w)
        else (Fulfilled (location best, rankSources field sources), w)
    end.
Proof.
  unfold bestMatch.
  destruct (rankSources field sources) as [|best rest]; [reflexivity|].
  destruct (Provider_eqb (provider best) fastly); reflexivity.
Qed.

(** [resolve], step by step. *)
Lemma resolve_eq (addr : string) (results : list LocationInfoWithProvider) (w : W) :
  resolve imports addr results w
  = if noTrustedCity (withCities results)
    then (Rejected (unresolvable addr), w)
    else
      match bestMatch imports normalizedCityField results w with
      | (Rejected e, w1) => (Rejected e, w1)
      | (Fulfilled (match_, ranked), w1) =>
          match matchNetwork match_ ranked with
          | None => (Rejected (unresolvable addr), w1)
          | Some networkMatch =>
              (Fulfilled (probeLocation match_ networkMatch
                            (matchRegion imports match_)), w1)
          end
      end.
Proof.
  unfold resolve.
  destruct (noTrustedCity (withCities results)); [reflexivity|].
  unfold bind.
  destruct (bestMatch imports normalizedCityField results w) as [[[m r]|e] w1];
    [|reflexivity].
  destruct (matchNetwork m r); reflexivity.
Qed.

(** The only errors [resolve] raises. *)
Lemma resolve_errors (addr : string) (results : list LocationInfoWithProvider)
  (w : W) (e : Error) :
  result_of (resolve imports addr results) w = Rejected e ->
  e = unresolvable addr \/ e = noCorrectValue normalizedCityField.
Proof.
  unfold result_of. rewrite resolve_eq.
  destruct (noTrustedCity (withCities results)).
  - cbn. intros [= <-]. now left.
  - rewrite bestMatch_eq.
    destruct (rankSources normalizedCityField results) as [|best rest].
    + cbn. intros [= <-]. now right.
    + destruct (Provider_eqb (provider best) fastly).
      * cbn. intros [= <-]. now right.
      * destruct (matchNetwork best (best :: rest)); cbn.
        -- discriminate.
        -- intros [= <-]. now left.
Qed.

Lemma unresolvable_not_vpn (addr : string) : unresolvable addr <> vpnDetected.
Proof. unfold unresolvable, vpnDetected. cbn. discriminate. Qed.

Lemma noCorrectValue_not_vpn (field : Field) : noCorrectValue field <> vpnDetected.
Proof. unfold noCorrectValue, vpnDetected. discriminate. Qed.

Lemma noCorrectValue_not_unresolvable (field : Field) (addr : string) :
  noCorrectValue field <> unresolvable addr.
Proof. unfold noCorrectValue, unresolvable. discriminate. Qed.
End Running.

(* ================================================================== *)
(** * The VPN gate and the city filter                                 *)
(* ================================================================== *)

Section Gates.
Context {W : Type}.
Variable cache : CacheInterface W.
Variable imports : Imports W.

Lemma vpnGate_true_iff (addr : string)
  (a : PromiseSettledResult Ip2LocationBundledResponse)
  (b c d e : PromiseSettledResult LocationInfo) :
  vpnGate imports addr (a, b, c, d, e) = true
  <-> (exists value, a = Fulfilled value /\ isProxy value = true)
      /\ isAddrWhitelisted imports addr = false.
Proof.
  unfold vpnGate. rewrite andb_true_iff, negb_true_iff.
  split.
  - intros [Hp Hw]. split; [|exact Hw].
    destruct a as [value|reason]; [|discriminate]. now exists value.
  - intros [[value [-> Hp]] Hw]. now split.
Qed.

(** C3: [lookup] fails with the error "vpn detected" exactly when the
    ip2location query succeeded with [isProxy] set and the address is
    not in the allowlist. It then fails in the world left by the provider
    queries, before any vote, whatever the other four providers said;
    with the address in the allowlist the same settled queries go on to
    the consensus computed by [resolve]. *)
Theorem lookup_vpn_detected (addr : string) (w w' : W)
  (a : PromiseSettledResult Ip2LocationBundledResponse)
  (b c d e : PromiseSettledResult LocationInfo) :
  providerQueries cache imports addr w = (Fulfilled (a, b, c, d, e), w') ->
  (result_of (lookup cache imports addr) w = Rejected vpnDetected
   <-> (exists value, a = Fulfilled value /\ isProxy value = true)
       /\ isAddrWhitelisted imports addr = false)
  /\ error_message vpnDetected = "vpn detected"
  /\ ((exists value, a = Fulfilled value /\ isProxy value = true)
      /\ isAddrWhitelisted imports addr = false ->
      lookup cache imports addr w = (Rejected vpnDetected, w'))
  /\ (isAddrWhitelisted imports addr = true ->
      lookup cache imports addr w
      = resolve imports addr (candidates (a, b, c, d, e)) w').
Proof.
  intros Hq. split; [split|split; [reflexivity|split]].
  - intros Hr.
    destruct (vpnGate imports addr (a, b, c, d, e)) eqn:Hg.
    + apply vpnGate_true_iff in Hg. tauto.
    + exfalso. unfold result_of in Hr.
      rewrite (lookup_gate_open _ _ _ _ _ _ Hq Hg) in Hr.
      destruct (resolve_errors imports addr _ w' _ Hr) as [He|He].
      * symmetry in He. now apply unresolvable_not_vpn in He.
      * symmetry in He. now apply noCorrectValue_not_vpn in He.
  - intros Hc. apply (proj2 (vpnGate_true_iff addr a b c d e)) in Hc.
    unfold result_of.
    now rewrite (lookup_gate_closed _ _ _ _ _ _ Hq Hc).
  - intros Hc. apply (proj2 (vpnGate_true_iff addr a b c d e)) in Hc.
    exact (lookup_gate_closed _ _ _ _ _ _ Hq Hc).
  - intros Hw. apply (lookup_gate_open _ _ _ _ _ _ Hq).
    unfold vpnGate. rewrite Hw. cbn. apply andb_false_r.
Qed.

Lemma noTrustedCity_true_iff (resultsWithCities : list LocationInfoWithProvider) :
  noTrustedCity resultsWithCities = true
  <-> length resultsWithCities = 0
      \/ exists only, resultsWithCities = [only] /\ provider only = fastly.
Proof.
  unfold noTrustedCity. split.
  - destruct resultsWithCities as [|x [|y rest]]; cbn.
    + now left.
    + intros Hp. right. exists x. split; [reflexivity|].
      destruct (provider x); cbn in Hp; congruence.
    + discriminate.
  - intros [Hl|[only [-> Hp]]].
    + destruct resultsWithCities; [reflexivity|discriminate].
    + cbn. now rewrite Hp.
Qed.

Lemma withCities_nil (results : list LocationInfoWithProvider) :
  (forall x : LocationInfoWithProvider, In x results -> city x = EmptyString) ->
  withCities results = [].
Proof.
  intros Hall. unfold withCities.
  induction results as [|x l IH]; [reflexivity|]. cbn.
  rewrite (Hall x (or_introl eq_refl)). cbn.
  apply IH. intros y Hy. apply Hall. now right.
Qed.

Lemma withCities_single (pre post : list LocationInfoWithProvider)
  (only : LocationInfoWithProvider) :
  city only <> EmptyString ->
  (forall x : LocationInfoWithProvider, In x (pre ++ post) -> city x = EmptyString) ->
  withCities (pre ++ only :: post) = [only].
Proof.
  intros Hcity Hrest. unfold withCities. rewrite filter_app. cbn.
  fold (withCities pre). fold (withCities post).
  rewrite (withCities_nil pre), (withCities_nil post).
  - destruct (city only); [contradiction|reflexivity].
  - intros x Hx. apply Hrest. apply in_app_iff. now right.
  - intros x Hx. apply Hrest. apply in_app_iff. now left.
Qed.

(** C4: once the VPN gate is passed, [lookup] fails with the error
    "unresolvable geoip: <address>" whenever the city of every candidate
    is empty, or the city of exactly one candidate is not empty and that
    candidate comes from fastly; in particular when fastly alone reports
    a city. *)
Theorem lookup_no_trusted_city (addr : string) (w w' : W) (settled : SettledQueries) :
  providerQueries cache imports addr w = (Fulfilled settled, w') ->
  vpnGate imports addr settled = false ->
  ((forall x : LocationInfoWithProvider,
       In x (candidates settled) -> city x = EmptyString)
   \/ exists pre only post,
       candidates settled = pre ++ only :: post
       /\ city only <> EmptyString
       /\ provider only = fastly
       /\ forall x : LocationInfoWithProvider,
           In x (pre ++ post) -> city x = EmptyString) ->
  lookup cache imports addr w = (Rejected (unresolvable addr), w')
  /\ unresolvable addr = InternalError ("unresolvable geoip: " ++ addr) true
  /\ error_message (unresolvable addr) = ("unresolvable geoip: " ++ addr)%string.
Proof.
  intros Hq Hg Hc.
  assert (Hguard : noTrustedCity (withCities (candidates settled)) = true).
  { apply noTrustedCity_true_iff.
    destruct Hc as [Hnone|[pre [only [post [Hsplit [Hcity [Hp Hrest]]]]]]].
    - left. now rewrite (withCities_nil _ Hnone).
    - right. exists only. split; [|exact Hp].
      rewrite Hsplit. now apply withCities_single. }
  split; [|split; reflexivity].
  rewrite (lookup_gate_open _ _ _ _ _ _ Hq Hg), resolve_eq, Hguard. reflexivity.
Qed.
End Gates.

(* ================================================================== *)
(** * Grouping and sorting                                             *)
(* ================================================================== *)

Section GroupingFacts.
Context {A : Type}.
Variable key : A -> string.

Lemma existsb_eqb_In (k : string) (ks : list string) :
  existsb (String.eqb k) ks = true <-> In k ks.
Proof.
  rewrite existsb_exists. split.
  - intros [k' [Hin Heq]]. apply String.eqb_eq in Heq. now subst.
  - intros Hin. exists k. split; [exact Hin|apply String.eqb_refl].
Qed.

Lemma firstSeenKeys_snoc (l : list A) (x : A) :
  firstSeenKeys key (l ++ [x]) = addKey (key x) (firstSeenKeys key l).
Proof. unfold firstSeenKeys. now rewrite fold_left_app. Qed.

Lemma In_addKey (k k' : string) (ks : list string) :
  In k' (addKey k ks) <-> In k' ks \/ k' = k.
Proof.
  unfold addKey. destruct (existsb (String.eqb k) ks) eqn:He.
  - apply existsb_eqb_In in He. split; [tauto|]. intros [H| ->]; assumption.
  - rewrite in_app_iff. cbn. intuition congruence.
Qed.

Lemma In_firstSeenKeys (l : list A) (k : string) :
  In k (firstSeenKeys key l) <-> exists x, In x l /\ key x = k.
Proof.
  induction l as [|x l IH] using rev_ind.
  - cbn. split; [tauto|]. now intros [x [[] _]].
  - rewrite firstSeenKeys_snoc, In_addKey, IH. split.
    + intros [[y [Hy Hk]]| ->].
      * exists y. rewrite in_app_iff. tauto.
      * exists x. rewrite in_app_iff. cbn. tauto.
    + intros [y [Hy Hk]]. apply in_app_iff in Hy. destruct Hy as [Hy|[<-|[]]].
      * left. now exists y.
      * now right.
Qed.

Lemma NoDup_firstSeenKeys (l : list A) : NoDup (firstSeenKeys key l).
Proof.
  induction l as [|x l IH] using rev_ind.
  - constructor.
  - rewrite firstSeenKeys_snoc. unfold addKey.
    destruct (existsb (String.eqb (key x)) (firstSeenKeys key l)) eqn:He;
      [exact IH|].
    apply NoDup_app; [exact IH|repeat constructor; now intros []|].
    intros k Hk [<-|[]].
    apply existsb_eqb_In in Hk. congruence.
Qed.

Lemma groupBy_snoc (l : list A) (x : A) :
  groupBy (l ++ [x]) key = assignGroup (key x) x (groupBy l key).
Proof. unfold groupBy. now rewrite fold_left_app. Qed.

(** Pushing under a key the object already has. *)
Lemma assignGroup_present (k : string) (v : A) (g g' : string -> list A)
  (ks : list string) :
  NoDup ks -> In k ks ->
  g' k = g k ++ [v] ->
  (forall k', k' <> k -> g' k' = g k') ->
  assignGroup k v (map (fun k' => (k', g k')) ks)
  = map (fun k' => (k', g' k')) ks.
Proof.
  intros Hnd Hin Hk Hother.
  induction ks as [|k0 ks IH]; [destruct Hin|].
  inversion Hnd as [|? ? Hnotin Hnd']; subst. cbn.
  destruct (String.eqb k0 k) eqn:He.
  - apply String.eqb_eq in He. subst k0. rewrite Hk. f_equal.
    apply map_ext_in. intros k' Hk'. rewrite Hother; [reflexivity|].
    intros ->. contradiction.
  - apply String.eqb_neq in He. rewrite (Hother k0 He). f_equal.
    apply IH; [exact Hnd'|]. destruct Hin as [Heq|Hin]; [congruence|exact Hin].
Qed.

(** Creating a property the object does not have yet. *)
Lemma assignGroup_absent (k : string) (v : A) (g : string -> list A)
  (ks : list string) :
  ~ In k ks ->
  assignGroup k v (map (fun k' => (k', g k')) ks)
  = map (fun k' => (k', g k')) ks ++ [(k, [v])].
Proof.
  intros Hnotin. induction ks as [|k0 ks IH]; [reflexivity|]. cbn.
  destruct (String.eqb k0 k) eqn:He.
  - apply String.eqb_eq in He. subst. exfalso. apply Hnotin. now left.
  - f_equal. apply IH. intros Hin. apply Hnotin. now right.
Qed.

Lemma members_snoc (k : string) (l : list A) (x : A) :
  members key k (l ++ [x])
  = members key k l ++ (if String.eqb (key x) k then [x] else []).
Proof. unfold members. rewrite filter_app. reflexivity. Qed.

Lemma members_nil_of_unseen (k : string) (l : list A) :
  ~ In k (firstSeenKeys key l) -> members key k l = [].
Proof.
  intros Hnotin. unfold members.
  induction l as [|x l IH]; [reflexivity|]. cbn.
  destruct (String.eqb (key x) k) eqn:He.
  - apply String.eqb_eq in He. exfalso. apply Hnotin.
    apply In_firstSeenKeys. exists x. split; [now left|exact He].
  - apply IH. intros Hin. apply Hnotin.
    apply In_firstSeenKeys. apply In_firstSeenKeys in Hin.
    destruct Hin as [y [Hy Hk]]. exists y. split; [now right|exact Hk].
Qed.

(** [_.groupBy]: one property per distinct key, created in first-seen
    order, holding the members of that key in scan order. *)
Lemma groupBy_spec (l : list A) :
  groupBy l key
  = map (fun k => (k, members key k l)) (firstSeenKeys key l).
Proof.
  induction l as [|x l IH] using rev_ind; [reflexivity|].
  rewrite groupBy_snoc, IH, firstSeenKeys_snoc. unfold addKey.
  destruct (existsb (String.eqb (key x)) (firstSeenKeys key l)) eqn:He.
  - apply existsb_eqb_In in He.
    apply assignGroup_present.
    + apply NoDup_firstSeenKeys.
    + exact He.
    + rewrite members_snoc, String.eqb_refl. reflexivity.
    + intros k' Hk'. rewrite members_snoc.
      destruct (String.eqb (key x) k') eqn:He'.
      * apply String.eqb_eq in He'. congruence.
      * apply app_nil_r.
  - assert (Hnotin : ~ In (key x) (firstSeenKeys key l)).
    { intros Hin. apply existsb_eqb_In in Hin. congruence. }
    rewrite assignGroup_absent by exact Hnotin.
    rewrite map_app. cbn. f_equal.
    + apply map_ext_in. intros k Hk. rewrite members_snoc.
      destruct (String.eqb (key x) k) eqn:He'.
      * apply String.eqb_eq in He'. congruence.
      * now rewrite app_nil_r.
    + rewrite members_snoc, String.eqb_refl.
      now rewrite (members_nil_of_unseen _ _ Hnotin).
Qed.
End GroupingFacts.

Section SortingFacts.
Context {B : Type}.
Variable compareFn : B -> B -> Z.

Lemma Permutation_sortInsert (x : B) (l : list B) :
  Permutation (sortInsert compareFn x l) (x :: l).
Proof.
  induction l as [|y ys IH]; [reflexivity|]. cbn.
  destruct (Z.leb (compareFn x y) 0); [reflexivity|].
  rewrite IH. apply perm_swap.
Qed.

Lemma Permutation_Array_sort (l : list B) :
  Permutation (Array_sort compareFn l) l.
Proof.
  induction l as [|x l IH]; [reflexivity|].
  change (Array_sort compareFn (x :: l))
    with (sortInsert compareFn x (Array_sort compareFn l)).
  rewrite Permutation_sortInsert. now constructor.
Qed.

Lemma In_Array_sort (x : B) (l : list B) :
  In x (Array_sort compareFn l) <-> In x l.
Proof.
  split; apply Permutation_in;
    [|symmetry]; apply Permutation_Array_sort.
Qed.

Lemma Permutation_filter_split (f : B -> bool) (l : list B) :
  Permutation (filter f l ++ filter (fun x => negb (f x)) l) l.
Proof.
  induction l as [|x l IH]; [reflexivity|]. cbn.
  destruct (f x); cbn.
  - now constructor.
  - rewrite <- Permutation_middle. now constructor.
Qed.
End SortingFacts.

Section SortByLength.
Context {A : Type}.

(** The first element after the sort by descending length is the first
    of the longest elements: everything before it in the input is
    strictly shorter, nothing after it is longer. *)
Lemma Array_sort_head (gs : list (list A)) (h : list A) (t : list (list A)) :
  Array_sort byLengthDesc gs = h :: t ->
  exists pre post,
    gs = pre ++ h :: post
    /\ (forall g, In g pre -> length g < length h)
    /\ (forall g, In g post -> length g <= length h).
Proof.
  revert h t. induction gs as [|a gs IH]; intros h t Hs; [discriminate|].
  change (sortInsert byLengthDesc a (Array_sort byLengthDesc gs) = h :: t) in Hs.
  destruct (Array_sort byLengthDesc gs) as [|y ys] eqn:Hsorted.
  - cbn in Hs. injection Hs as <- <-.
    assert (gs = []) as ->.
    { apply Permutation_nil. rewrite <- Hsorted.
      apply Permutation_Array_sort. }
    exists [], []. repeat split; intros g [].
  - destruct (IH y ys eq_refl) as [pre [post [Hgs [Hpre Hpost]]]].
    cbn in Hs. unfold byLengthDesc in Hs at 1.
    destruct (Z.leb (Z.of_nat (length y) - Z.of_nat (length a)) 0) eqn:Hle.
    + injection Hs as <- <-. apply Z.leb_le in Hle.
      exists [], gs. repeat split; [intros g []|].
      intros g Hg. subst gs. apply in_app_iff in Hg.
      destruct Hg as [Hg|[<-|Hg]].
      * specialize (Hpre g Hg). lia.
      * lia.
      * specialize (Hpost g Hg). lia.
    + injection Hs as <- <-. apply Z.leb_gt in Hle.
      exists (a :: pre), post. subst gs. repeat split.
      * intros g [<-|Hg]; [lia|now apply Hpre].
      * exact Hpost.
Qed.

Lemma Array_sort_head_longest (gs : list (list A)) (h : list A)
  (t : list (list A)) :
  Array_sort byLengthDesc gs = h :: t ->
  In h gs /\ forall g, In g gs -> length g <= length h.
Proof.
  intros Hs. destruct (Array_sort_head _ _ _ Hs) as [pre [post [-> [Hpre Hpost]]]].
  split.
  - apply in_app_iff. right. now left.
  - intros g Hg. apply in_app_iff in Hg. destruct Hg as [Hg|[<-|Hg]].
    + specialize (Hpre g Hg). lia.
    + lia.
    + now apply Hpost.
Qed.

(** Enumerating the own properties never loses or invents one. *)
Lemma Permutation_ownProperties (o : @JsObject A) :
  Permutation (ownProperties o) o.
Proof.
  unfold ownProperties. rewrite Permutation_Array_sort.
  apply Permutation_filter_split.
Qed.

Lemma In_Object_values (g : list A) (o : @JsObject A) :
  In g (Object_values o) <-> In g (map snd o).
Proof.
  unfold Object_values.
  split; apply Permutation_in; apply Permutation_map;
    [|symmetry]; apply Permutation_ownProperties.
Qed.

(** With no array-index key, the properties come in creation order. *)
Lemma ownProperties_no_index (o : @JsObject A) :
  (forall p, In p o -> isArrayIndex (fst p) = false) ->
  ownProperties o = o.
Proof.
  intros Hno. unfold ownProperties.
  assert (Hidx : filter (fun p : string * list A => isArrayIndex (fst p)) o = []).
  { induction o as [|p o IH]; [reflexivity|]. cbn.
    rewrite (Hno p (or_introl eq_refl)). apply IH.
    intros q Hq. apply Hno. now right. }
  rewrite Hidx. cbn.
  induction o as [|p o IH]; [reflexivity|]. cbn.
  rewrite (Hno p (or_introl eq_refl)). cbn. f_equal.
  apply IH.
  - intros q Hq. apply Hno. now right.
  - cbn in Hidx. rewrite (Hno p (or_introl eq_refl)) in Hidx. exact Hidx.
Qed.
End SortByLength.

(* ================================================================== *)
(** * The ranking computed by the vote                                 *)
(* ================================================================== *)

Section Ranking.
Context {A : Type}.
Variable key : A -> string.

Lemma In_members (k : string) (l : list A) (x : A) :
  In x (members key k l) <-> In x l /\ key x = k.
Proof.
  unfold members. rewrite filter_In. now rewrite String.eqb_eq.
Qed.

Lemma members_not_nil (k : string) (l : list A) :
  In k (firstSeenKeys key l) -> members key k l <> [].
Proof.
  intros Hin Hnil. apply In_firstSeenKeys in Hin.
  destruct Hin as [x [Hx Hk]].
  assert (Hm : In x (members key k l)) by now apply In_members.
  rewrite Hnil in Hm. destruct Hm.
Qed.

(** Two different groups share no member. *)
Lemma members_disjoint_length (k c : string) (l : list A) :
  k <> c ->
  length (members key k l) + length (members key c l) <= length l.
Proof.
  intros Hne. unfold members. induction l as [|x l IH]; [cbn; lia|]. cbn.
  destruct (String.eqb (key x) k) eqn:Hk, (String.eqb (key x) c) eqn:Hc; cbn;
    try lia.
  apply String.eqb_eq in Hk, Hc. congruence.
Qed.

(** The groups handed to the sort: one per distinct key. *)
Lemma In_grouped (g : list A) (l : list A) :
  In g (Object_values (groupBy l key))
  <-> exists k, In k (firstSeenKeys key l) /\ g = members key k l.
Proof.
  rewrite In_Object_values, groupBy_spec, map_map. cbn.
  rewrite in_map_iff. split.
  - intros [k [Hg Hk]]. now exists k.
  - intros [k [Hk Hg]]. now exists k.
Qed.

Lemma concat_head (gs : list (list A)) (x : A) (rest : list A) :
  (forall g, In g gs -> g <> []) ->
  concat gs = x :: rest ->
  exists tl t, gs = (x :: tl) :: t.
Proof.
  intros Hne Hc. destruct gs as [|g t]; [discriminate|].
  destruct g as [|y tl].
  - exfalso. now apply (Hne []); [left|].
  - cbn in Hc. injection Hc as -> _. now exists tl, t.
Qed.

Lemma In_ranking (l : list A) (x : A) : In x (ranking key l) <-> In x l.
Proof.
  unfold ranking. rewrite in_concat. split.
  - intros [g [Hg Hx]]. apply In_Array_sort, In_grouped in Hg.
    destruct Hg as [k [_ ->]]. now apply In_members in Hx.
  - intros Hx. exists (members key (key x) l). split.
    + apply In_Array_sort, In_grouped. exists (key x). split; [|reflexivity].
      apply In_firstSeenKeys. now exists x.
    + now apply In_members.
Qed.

Lemma ranking_nil (l : list A) : ranking key l = [] <-> l = [].
Proof.
  split.
  - intros Hr. destruct l as [|x l]; [reflexivity|].
    assert (Hx : In x (ranking key (x :: l))) by (apply In_ranking; now left).
    rewrite Hr in Hx. destruct Hx.
  - intros ->. reflexivity.
Qed.

(** The head of the ranking key is the first member of a group that no
    other group outnumbers. *)
Lemma ranking_head (l : list A) (best : A) (rest : list A) :
  ranking key l = best :: rest ->
  exists k tl,
    members key k l = best :: tl
    /\ forall k', length (members key k' l) <= length (members key k l).
Proof.
  intros Hr. unfold ranking in Hr.
  assert (Hne : forall g,
             In g (Array_sort byLengthDesc (Object_values (groupBy l key))) ->
             g <> []).
  { intros g Hg. apply In_Array_sort, In_grouped in Hg.
    destruct Hg as [k [Hk ->]]. now apply members_not_nil. }
  destruct (concat_head _ _ _ Hne Hr) as [tl [t Hs]].
  destruct (Array_sort_head_longest _ _ _ Hs) as [Hin Hmax].
  apply In_grouped in Hin. destruct Hin as [k [Hk Hg]].
  exists k, tl. split; [now symmetry|].
  intros k'. rewrite <- Hg.
  destruct (in_dec string_dec k' (firstSeenKeys key l)) as [Hk'|Hk'].
  - apply Hmax. apply In_grouped. now exists k'.
  - rewrite (members_nil_of_unseen _ _ _ Hk'). cbn. lia.
Qed.

(** A key held by more than half of the list wins the vote. *)
Lemma ranking_majority (l : list A) (c : string) :
  2 * length (members key c l) > length l ->
  exists best rest tl,
    ranking key l = best :: rest /\ members key c l = best :: tl.
Proof.
  intros Hmaj.
  destruct (ranking key l) as [|best rest] eqn:Hr.
  - apply (proj1 (ranking_nil l)) in Hr. subst l. cbn in Hmaj. lia.
  - destruct (ranking_head _ _ _ Hr) as [k [tl [Hk Hmax]]].
    exists best, rest, tl. split; [reflexivity|].
    destruct (string_dec k c) as [->|Hne]; [exact Hk|].
    pose proof (members_disjoint_length k c l Hne).
    specialize (Hmax c). lia.
Qed.
End Ranking.

(* ================================================================== *)
(** * The majority vote                                                *)
(* ================================================================== *)

Section MajorityVote.
Context {W : Type}.
Variable cache : CacheInterface W.
Variable imports : Imports W.

Lemma rankSources_ranking (field : Field) (sources : list LocationInfoWithProvider) :
  rankSources field sources = ranking (groupKey field) (voters field sources).
Proof. reflexivity. Qed.

Lemma truthy_string_true (s : string) : truthy s = true <-> s <> EmptyString.
Proof. destruct s; cbn; split; congruence. Qed.

Lemma Provider_eqb_eq (p q : Provider) : Provider_eqb p q = true <-> p = q.
Proof. destruct p, q; cbn; split; congruence. Qed.

(** A candidate that reports a city name [c] takes part in the vote. *)
Lemma members_voters (field : Field) (c : string)
  (sources : list LocationInfoWithProvider) :
  c <> EmptyString ->
  members (groupKey field) c (voters field sources)
  = members (groupKey field) c sources.
Proof.
  intros Hc. unfold members, voters, groupKey.
  induction sources as [|x l IH]; [reflexivity|]. cbn.
  destruct (truthy (field_get field x)) eqn:Ht; cbn.
  - now rewrite IH.
  - destruct (String.eqb (field_get field x) c) eqn:He; [|exact IH].
    apply String.eqb_eq in He. rewrite He in Ht.
    apply truthy_string_true in Hc. congruence.
Qed.

Lemma voters_length (field : Field) (sources : list LocationInfoWithProvider) :
  length (voters field sources) <= length sources.
Proof. apply filter_length_le. Qed.

Lemma candidates_fastlyOnlyLast (settled : SettledQueries) :
  fastlyOnlyLast (candidates settled) = true.
Proof.
  destruct settled as [[[[a b] c] d] e].
  destruct a, b, c, d, e; reflexivity.
Qed.

(** In a list with fastly last, a selection that starts with the
    candidate from fastly holds nothing else. *)
Lemma fastly_head_alone (f : LocationInfoWithProvider -> bool)
  (l : list LocationInfoWithProvider) (best : LocationInfoWithProvider)
  (tl : list LocationInfoWithProvider) :
  fastlyOnlyLast l = true ->
  filter f l = best :: tl ->
  provider best = fastly ->
  tl = [] /\ exists pre, l = pre ++ [best].
Proof.
  induction l as [|x rest IH]; intros Hl Hf Hp; [discriminate|].
  destruct rest as [|y rest'].
  - cbn in Hf. destruct (f x); [|discriminate].
    injection Hf as -> <-. split; [reflexivity|now exists []].
  - cbn [fastlyOnlyLast] in Hl. apply andb_true_iff in Hl.
    destruct Hl as [Hx Hrest]. apply negb_true_iff in Hx.
    cbn [filter] in Hf. destruct (f x).
    + injection Hf as -> _. apply Provider_eqb_eq in Hp. congruence.
    + destruct (IH Hrest Hf Hp) as [Htl [pre Hpre]].
      split; [exact Htl|]. exists (x :: pre). cbn. now rewrite Hpre.
Qed.

Lemma filter_filter_and {B : Type} (f g : B -> bool) (l : list B) :
  filter g (filter f l) = filter (fun x => (f x && g x)%bool) l.
Proof.
  induction l as [|x l IH]; [reflexivity|]. cbn.
  destruct (f x); cbn; [destruct (g x)|]; now rewrite IH.
Qed.

(** A fastly candidate that leads its group is alone in it and is the
    last candidate. *)
Lemma fastly_leads_alone (settled : SettledQueries) (k : string)
  (best : LocationInfoWithProvider) (tl : list LocationInfoWithProvider) :
  members (groupKey normalizedCityField) k
    (voters normalizedCityField (candidates settled)) = best :: tl ->
  provider best = fastly ->
  tl = [] /\ exists pre, candidates settled = pre ++ [best].
Proof.
  unfold members, voters. rewrite filter_filter_and.
  apply fastly_head_alone, candidates_fastlyOnlyLast.
Qed.

(** C2: when more than half of the candidates report the same
    normalized city [c], and the list passes the VPN gate and the city
    filter, the vote succeeds and its winner reports [c]; [lookup] then
    either returns a result whose normalized city is [c] or fails in the
    network repair. *)
Theorem lookup_majority_city (addr : string) (w w' : W) (settled : SettledQueries)
  (c : string) :
  providerQueries cache imports addr w = (Fulfilled settled, w') ->
  vpnGate imports addr settled = false ->
  noTrustedCity (withCities (candidates settled)) = false ->
  c <> EmptyString ->
  2 * length (members (groupKey normalizedCityField) c (candidates settled))
  > length (candidates settled) ->
  exists best rest,
    bestMatch imports normalizedCityField (candidates settled) w'
    = (Fulfilled (location best, best :: rest), w')
    /\ In best (candidates settled)
    /\ normalizedCity best = c
    /\ ((matchNetwork best (best :: rest) = None
         /\ lookup cache imports addr w = (Rejected (unresolvable addr), w'))
        \/ exists r, lookup cache imports addr w = (Fulfilled r, w')
                     /\ ProbeLocation.normalizedCity r = c).
Proof.
  intros Hq Hg Hcity Hc Hmaj.
  set (results := candidates settled) in *.
  assert (Hmaj' : 2 * length (members (groupKey normalizedCityField) c
                                (voters normalizedCityField results))
                  > length (voters normalizedCityField results)).
  { rewrite members_voters by exact Hc.
    pose proof (voters_length normalizedCityField results). lia. }
  destruct (ranking_majority _ _ _ Hmaj') as [best [rest [tl [Hr Hm]]]].
  rewrite <- rankSources_ranking in Hr.
  assert (Hbest : In best results /\ normalizedCity best = c).
  { assert (Hin : In best (members (groupKey normalizedCityField) c results)).
    { rewrite <- members_voters by exact Hc. rewrite Hm. now left. }
    apply In_members in Hin. exact Hin. }
  assert (Hnf : Provider_eqb (provider best) fastly = false).
  { destruct (Provider_eqb (provider best) fastly) eqn:Hp; [|reflexivity].
    exfalso. apply Provider_eqb_eq in Hp.
    destruct (fastly_leads_alone settled c best tl Hm Hp) as [-> [pre Hpre]].
    fold results in Hpre.
    rewrite members_voters in Hm by exact Hc. rewrite Hm in Hmaj.
    rewrite Hpre, length_app in Hmaj. cbn in Hmaj.
    destruct pre as [|y pre]; [|cbn in Hmaj; lia].
    cbn in Hpre. rewrite Hpre in Hcity. unfold withCities in Hcity.
    cbn in Hcity. destruct (truthy (city best)); cbn in Hcity.
    - rewrite Hp in Hcity. discriminate.
    - discriminate. }
  exists best, rest.
  assert (Hbm : bestMatch imports normalizedCityField results w'
                = (Fulfilled (location best, best :: rest), w')).
  { rewrite bestMatch_eq, Hr, Hnf. reflexivity. }
  split; [exact Hbm|]. split; [apply Hbest|]. split; [apply Hbest|].
  rewrite (lookup_gate_open _ _ _ _ _ _ Hq Hg), resolve_eq.
  fold results. rewrite Hcity, Hbm.
  destruct (matchNetwork best (best :: rest)) as [n|].
  - right. eexists. split; [reflexivity|]. apply Hbest.
  - left. now split.
Qed.
End MajorityVote.

(* ================================================================== *)
(** * Network repair                                                   *)
(* ================================================================== *)

Section NetworkRepair.
Context {W : Type}.
Variable cache : CacheInterface W.
Variable imports : Imports W.

Lemma hasNetwork_true (s : LocationInfo) :
  (truthy (asn s) && truthy (network s))%bool = true <-> hasNetwork s.
Proof.
  unfold hasNetwork. rewrite andb_true_iff, truthy_string_true.
  unfold truthy at 1, Truthy_Z. rewrite negb_true_iff, Z.eqb_neq. reflexivity.
Qed.

Lemma repairs_true (winner : LocationInfo) (s : LocationInfo) :
  (String.eqb (normalizedCity s) (normalizedCity winner)
   && truthy (asn s) && truthy (network s))%bool = true
  <-> repairs winner s.
Proof.
  unfold repairs. rewrite <- andb_assoc, andb_true_iff, String.eqb_eq.
  now rewrite hasNetwork_true.
Qed.

Lemma matchNetwork_complete (winner : LocationInfo)
  (ranked : list LocationInfoWithProvider) :
  hasNetwork winner -> matchNetwork winner ranked = Some (networkOf winner).
Proof.
  intros Hn. unfold matchNetwork.
  now rewrite (proj2 (hasNetwork_true winner) Hn).
Qed.

Lemma matchNetwork_incomplete (winner : LocationInfo)
  (ranked : list LocationInfoWithProvider) :
  ~ hasNetwork winner ->
  matchNetwork winner ranked = matchNetworkLoop winner ranked.
Proof.
  intros Hn. unfold matchNetwork.
  destruct (truthy (asn winner) && truthy (network winner))%bool eqn:Hb;
    [|reflexivity].
  apply hasNetwork_true in Hb. contradiction.
Qed.

(** The loop returns the network of the first source that repairs. *)
Lemma matchNetworkLoop_first (winner : LocationInfo)
  (pre post : list LocationInfoWithProvider) (source : LocationInfoWithProvider) :
  (forall x : LocationInfoWithProvider, In x pre -> ~ repairs winner x) ->
  repairs winner source ->
  matchNetworkLoop winner (pre ++ source :: post) = Some (networkOf source).
Proof.
  intros Hpre Hs. induction pre as [|x pre IH]; cbn.
  - now rewrite (proj2 (repairs_true winner source) Hs).
  - destruct (String.eqb (normalizedCity x) (normalizedCity winner)
              && truthy (asn x) && truthy (network x))%bool eqn:Hb.
    + apply repairs_true in Hb. exfalso. apply (Hpre x); [now left|exact Hb].
    + apply IH. intros y Hy. apply Hpre. now right.
Qed.

Lemma matchNetworkLoop_none (winner : LocationInfo)
  (ranked : list LocationInfoWithProvider) :
  (forall x : LocationInfoWithProvider, In x ranked -> ~ repairs winner x) ->
  matchNetworkLoop winner ranked = None.
Proof.
  intros Hall. induction ranked as [|x l IH]; [reflexivity|]. cbn.
  destruct (String.eqb (normalizedCity x) (normalizedCity winner)
            && truthy (asn x) && truthy (network x))%bool eqn:Hb.
  - apply repairs_true in Hb. exfalso. apply (Hall x); [now left|exact Hb].
  - apply IH. intros y Hy. apply Hall. now right.
Qed.

(** Whatever the loop returns comes from a source that repairs. *)
Lemma matchNetworkLoop_some (winner : LocationInfo)
  (ranked : list LocationInfoWithProvider) (n : NetworkInfo) :
  matchNetworkLoop winner ranked = Some n ->
  exists source : LocationInfoWithProvider,
    In source ranked /\ repairs winner source /\ n = networkOf source.
Proof.
  induction ranked as [|x l IH]; [discriminate|]. cbn.
  destruct (String.eqb (normalizedCity x) (normalizedCity winner)
            && truthy (asn x) && truthy (network x))%bool eqn:Hb.
  - intros [= <-]. apply repairs_true in Hb. exists x. split; [now left|].
    now split.
  - intros Hn. destruct (IH Hn) as [s [Hs Hr]]. exists s. split; [now right|exact Hr].
Qed.

(** After a vote that [bestMatch] accepts, [lookup] is the network
    repair followed by the assembly of the result. *)
Lemma lookup_after_vote (addr : string) (w w' w1 : W) (settled : SettledQueries)
  (winner : LocationInfo) (ranked : list LocationInfoWithProvider) :
  providerQueries cache imports addr w = (Fulfilled settled, w') ->
  vpnGate imports addr settled = false ->
  noTrustedCity (withCities (candidates settled)) = false ->
  bestMatch imports normalizedCityField (candidates settled) w'
  = (Fulfilled (winner, ranked), w1) ->
  lookup cache imports addr w
  = match matchNetwork winner ranked with
    | None => (Rejected (unresolvable addr), w1)
    | Some networkMatch =>
        (Fulfilled (probeLocation winner networkMatch (matchRegion imports winner)),
         w1)
    end.
Proof.
  intros Hq Hg Hcity Hbm.
  rewrite (lookup_gate_open _ _ _ _ _ _ Hq Hg), resolve_eq, Hcity, Hbm.
  reflexivity.
Qed.

(** C5: for a vote with winner [winner] and ranked sequence [ranked]:
    a winner with a non-zero ASN and a non-empty network keeps its own
    network fields; otherwise the fields are those of the first candidate
    of [ranked] with the winner's normalized city, a non-zero ASN and a
    non-empty network; with no such candidate [lookup] fails with
    "unresolvable geoip: <address>". *)
Theorem lookup_network_repair (addr : string) (w w' w1 : W)
  (settled : SettledQueries) (winner : LocationInfo)
  (ranked : list LocationInfoWithProvider) :
  providerQueries cache imports addr w = (Fulfilled settled, w') ->
  vpnGate imports addr settled = false ->
  noTrustedCity (withCities (candidates settled)) = false ->
  bestMatch imports normalizedCityField (candidates settled) w'
  = (Fulfilled (winner, ranked), w1) ->
  (hasNetwork winner ->
   exists r, lookup cache imports addr w = (Fulfilled r, w1)
             /\ ProbeLocation.asn r = asn winner
             /\ ProbeLocation.network r = network winner
             /\ ProbeLocation.normalizedNetwork r = normalizedNetwork winner)
  /\ (~ hasNetwork winner ->
      forall pre source post,
        ranked = pre ++ source :: post ->
        (forall x : LocationInfoWithProvider, In x pre -> ~ repairs winner x) ->
        repairs winner source ->
        exists r, lookup cache imports addr w = (Fulfilled r, w1)
                  /\ ProbeLocation.asn r = asn source
                  /\ ProbeLocation.network r = network source
                  /\ ProbeLocation.normalizedNetwork r = normalizedNetwork source)
  /\ (~ hasNetwork winner ->
      (forall x : LocationInfoWithProvider, In x ranked -> ~ repairs winner x) ->
      lookup cache imports addr w = (Rejected (unresolvable addr), w1)
      /\ error_message (unresolvable addr)
         = ("unresolvable geoip: " ++ addr)%string).
Proof.
  intros Hq Hg Hcity Hbm.
  pose proof (lookup_after_vote _ _ _ _ _ _ _ Hq Hg Hcity Hbm) as Hl.
  split; [|split].
  - intros Hn. rewrite (matchNetwork_complete _ ranked Hn) in Hl.
    eexists. split; [exact Hl|]. now repeat split.
  - intros Hn pre source post -> Hpre Hs.
    rewrite (matchNetwork_incomplete _ _ Hn),
      (matchNetworkLoop_first _ _ _ _ Hpre Hs) in Hl.
    eexists. split; [exact Hl|]. now repeat split.
  - intros Hn Hall.
    rewrite (matchNetwork_incomplete _ _ Hn),
      (matchNetworkLoop_none _ _ Hall) in Hl.
    now split.
Qed.
End NetworkRepair.

(* ================================================================== *)
(** * The cache-aside wrapper                                          *)
(* ================================================================== *)

Section CacheAside.
Context {W : Type}.
Variable cache : CacheInterface W.
Variable imports : Imports W.

(** A hit: the read fulfils with a truthy value. *)
Lemma lookupWithCache_hit (T : TypeArg) (key : string) (fn : M W (El T))
  (w w1 : W) (value : El T) :
  cache_get cache T key w = (Fulfilled (Some value), w1) ->
  truthy value = true ->
  lookupWithCache cache imports T key fn w = (Fulfilled value, w1).
Proof.
  intros Hget Ht. unfold lookupWithCache, bind at 1, catch at 1.
  rewrite Hget, Ht. reflexivity.
Qed.

Lemma missPath_eq (T : TypeArg) (key : string) (fn : M W (El T)) (w : W) :
  (info <- fn ;;
   catch (cache_set cache T key info (geoip_cache_ttl imports))
     (fun error =>
        effect (logger_error imports "Failed to cache geoip info for probe.") ;;
        effect (newrelic_noticeError imports error) ;;
        ret tt) ;;
   ret info)%async w
  = missPath cache imports T key fn w.
Proof.
  unfold missPath, writeBack, afterSetFailure, bind, catch, effect, ret.
  destruct (fn w) as [[info|e] w']; [|reflexivity].
  destruct (cache_set cache T key info (geoip_cache_ttl imports) w')
    as [[[]|e] w'']; reflexivity.
Qed.

(** A miss: the read fulfils with a falsy value or with nothing. *)
Lemma lookupWithCache_miss (T : TypeArg) (key : string) (fn : M W (El T))
  (w w1 : W) (cached : option (El T)) :
  cache_get cache T key w = (Fulfilled cached, w1) ->
  truthy cached = false ->
  lookupWithCache cache imports T key fn w = missPath cache imports T key fn w1.
Proof.
  intros Hget Ht. unfold lookupWithCache, bind at 1, catch at 1.
  rewrite Hget. destruct cached as [value|].
  - change (truthy (Some value)) with (truthy value) in Ht. rewrite Ht.
    apply missPath_eq.
  - apply missPath_eq.
Qed.

(** A failed read: logged, reported, then the miss path. *)
Lemma lookupWithCache_get_fails (T : TypeArg) (key : string) (fn : M W (El T))
  (w w1 : W) (error : Error) :
  cache_get cache T key w = (Rejected error, w1) ->
  lookupWithCache cache imports T key fn w
  = missPath cache imports T key fn (afterGetFailure imports error w1).
Proof.
  intros Hget. unfold lookupWithCache, bind at 1, catch at 1.
  rewrite Hget. unfold bind at 1, effect at 1. unfold bind at 1, effect at 1.
  unfold ret at 1. apply missPath_eq.
Qed.

Lemma missPath_result (T : TypeArg) (key : string) (fn : M W (El T)) (w : W) :
  fst (missPath cache imports T key fn w) = result_of fn w.
Proof.
  unfold missPath, result_of. now destruct (fn w) as [[info|e] w'].
Qed.

(** Without a hit, the wrapper settles the way [fn] does. *)
Lemma lookupWithCache_no_hit (T : TypeArg) (key : string) (fn : M W (El T))
  (w : W) :
  match fst (cache_get cache T key w) with
  | Fulfilled cached => truthy cached = false
  | Rejected _ => True
  end ->
  exists wm, result_of (lookupWithCache cache imports T key fn) w
             = result_of fn wm.
Proof.
  destruct (cache_get cache T key w) as [[cached|e] w1] eqn:Hget; cbn; intros Hm.
  - exists w1. unfold result_of at 1.
    rewrite (lookupWithCache_miss _ _ _ _ _ _ Hget Hm). apply missPath_result.
  - exists (afterGetFailure imports e w1). unfold result_of at 1.
    rewrite (lookupWithCache_get_fails _ _ _ _ _ _ Hget). apply missPath_result.
Qed.

Lemma allOperationsFail_neverHits :
  allOperationsFail cache -> neverHits cache.
Proof.
  intros [Hget _] T key w. destruct (Hget T key w) as [e ->]. exact I.
Qed.

(** With a cache that never hits and adapters that settle as
    [settled], the five provider queries settle as [settled]. *)
Lemma providerQueries_without_hits (addr : string) (settled : SettledQueries)
  (w : W) :
  neverHits cache ->
  adaptersSettleAs imports addr settled ->
  exists w', providerQueries cache imports addr w = (Fulfilled settled, w').
Proof.
  intros Hmiss Hfix. destruct settled as [[[[a b] c] d] e].
  destruct Hfix as [Ha [Hb [Hc [Hd He]]]].
  unfold providerQueries, Promise_allSettled5, bind, settle, ret.
  repeat match goal with
         | |- context [lookupWithCache ?ca ?i ?t ?k ?f ?x] =>
             let H := fresh "Hr" in
             destruct (lookupWithCache_no_hit t k f x (Hmiss t k x)) as [? H];
             unfold result_of at 1 in H;
             destruct (lookupWithCache ca i t k f x) as [? ?];
             cbn [fst] in H
         end.
  rewrite Ha in Hr. rewrite Hb in Hr0. rewrite Hc in Hr1.
  rewrite Hd in Hr2. rewrite He in Hr3. subst.
  eexists. reflexivity.
Qed.

(** The consensus does not look at the world. *)
Lemma consensus_world_irrelevant (addr : string) (settled : SettledQueries)
  (w1 w2 : W) :
  result_of (consensus imports addr settled) w1
  = result_of (consensus imports addr settled) w2.
Proof.
  unfold result_of, consensus, bind, collectFulfilled.
  destruct (vpnGate imports addr settled); [reflexivity|].
  unfold ret. rewrite !resolve_eq.
  destruct (noTrustedCity (withCities (candidates settled))); [reflexivity|].
  rewrite !bestMatch_eq.
  destruct (rankSources normalizedCityField (candidates settled)) as [|best rest];
    [reflexivity|].
  destruct (Provider_eqb (provider best) fastly); [reflexivity|].
  destruct (matchNetwork best (best :: rest)); reflexivity.
Qed.

Lemma lookup_without_hits (addr : string) (settled : SettledQueries) (w w0 : W) :
  neverHits cache ->
  adaptersSettleAs imports addr settled ->
  result_of (lookup cache imports addr) w
  = result_of (consensus imports addr settled) w0.
Proof.
  intros Hmiss Hfix.
  destruct (providerQueries_without_hits addr settled w Hmiss Hfix) as [w' Hq].
  unfold result_of at 1. rewrite (lookup_after_queries _ _ _ _ _ _ Hq).
  apply consensus_world_irrelevant.
Qed.
End CacheAside.

Section CacheClaims.
Context {W : Type}.
Variable cache : CacheInterface W.
Variable imports : Imports W.

(** C6: a failure of the cache backend never reaches the caller of
    [lookupWithCache]. A failed [cache.get] is logged and the call goes
    on exactly as after a miss: [fn] runs and the call settles as [fn]
    does. A failed [cache.set], after a miss or after a failed read, is
    logged and the fresh value is returned all the same. And with a cache
    whose every operation fails, [lookup] returns what the consensus over
    the adapters' own outcomes returns. *)
Theorem lookupWithCache_fail_open (T : TypeArg) (key : string) (fn : M W (El T))
  (addr : string) (settled : SettledQueries) :
  (forall w w1 error,
      cache_get cache T key w = (Rejected error, w1) ->
      lookupWithCache cache imports T key fn w
      = missPath cache imports T key fn (afterGetFailure imports error w1)
      /\ result_of (lookupWithCache cache imports T key fn) w
         = result_of fn (afterGetFailure imports error w1))
  /\ (forall w w1 cached,
         cache_get cache T key w = (Fulfilled cached, w1) ->
         truthy cached = false ->
         lookupWithCache cache imports T key fn w
         = missPath cache imports T key fn w1)
  /\ (forall w w1 cached info w2 error w3,
         cache_get cache T key w = (Fulfilled cached, w1) ->
         truthy cached = false ->
         fn w1 = (Fulfilled info, w2) ->
         cache_set cache T key info (geoip_cache_ttl imports) w2
         = (Rejected error, w3) ->
         lookupWithCache cache imports T key fn w
         = (Fulfilled info, afterSetFailure imports error w3))
  /\ (forall w w1 error info w2 error' w3,
         cache_get cache T key w = (Rejected error, w1) ->
         fn (afterGetFailure imports error w1) = (Fulfilled info, w2) ->
         cache_set cache T key info (geoip_cache_ttl imports) w2
         = (Rejected error', w3) ->
         lookupWithCache cache imports T key fn w
         = (Fulfilled info, afterSetFailure imports error' w3))
  /\ (allOperationsFail cache ->
      adaptersSettleAs imports addr settled ->
      forall w w0,
        result_of (lookup cache imports addr) w
        = result_of (consensus imports addr settled) w0).
Proof.
  split; [|split; [|split; [|split]]].
  - intros w w1 error Hget.
    pose proof (lookupWithCache_get_fails cache imports T key fn w w1 error Hget)
      as Hl.
    split; [exact Hl|].
    unfold result_of at 1. rewrite Hl. apply missPath_result.
  - intros w w1 cached Hget Hf.
    exact (lookupWithCache_miss cache imports T key fn w w1 cached Hget Hf).
  - intros w w1 cached info w2 error w3 Hget Hf Hfn Hset.
    rewrite (lookupWithCache_miss cache imports T key fn w w1 cached Hget Hf).
    unfold missPath, writeBack. now rewrite Hfn, Hset.
  - intros w w1 error info w2 error' w3 Hget Hfn Hset.
    rewrite (lookupWithCache_get_fails cache imports T key fn w w1 error Hget).
    unfold missPath, writeBack. now rewrite Hfn, Hset.
  - intros Hbroken Hfix w w0.
    apply lookup_without_hits; [|exact Hfix].
    now apply allOperationsFail_neverHits.
Qed.

(** C10: the hit test of [lookupWithCache] is truthiness. A cached value
    that is falsy (nothing, undefined, null, 0, the empty string, false)
    sends the call down the miss path: [fn] runs, its value is written
    back and returned. Only a truthy cached value is returned without
    running [fn]. *)
Theorem lookupWithCache_falsy_is_miss (T : TypeArg) (key : string)
  (fn : M W (El T)) (w w1 : W) (cached : option (El T)) :
  cache_get cache T key w = (Fulfilled cached, w1) ->
  (truthy cached = false ->
   lookupWithCache cache imports T key fn w = missPath cache imports T key fn w1
   /\ forall info w2,
       fn w1 = (Fulfilled info, w2) ->
       lookupWithCache cache imports T key fn w
       = (Fulfilled info, writeBack cache imports T key info w2))
  /\ (forall value,
         cached = Some value -> truthy value = true ->
         lookupWithCache cache imports T key fn w = (Fulfilled value, w1))
  /\ (truthy cached = true <-> exists value, cached = Some value /\ truthy value = true)
  /\ (forall v : El unknownT,
         In v [JUndefined; JNull; JNum 0; JStr EmptyString; JBool false] ->
         truthy (Some v) = false).
Proof.
  intros Hget. split; [|split; [|split]].
  - intros Hf.
    pose proof (lookupWithCache_miss cache imports T key fn w w1 cached Hget Hf)
      as Hl.
    split; [exact Hl|].
    intros info w2 Hfn. rewrite Hl. unfold missPath. now rewrite Hfn.
  - intros value -> Ht.
    exact (lookupWithCache_hit cache imports T key fn w w1 value Hget Ht).
  - split.
    + destruct cached as [value|]; [|discriminate].
      intros Ht. now exists value.
    + intros [value [-> Ht]]. exact Ht.
  - intros v Hv. cbn in Hv.
    repeat (destruct Hv as [<-|Hv]; [reflexivity|]). destruct Hv.
Qed.

(** C9: with a cache that never hits, adapters that settle the same way
    whenever they are asked about [addr], and fixed allowlist and region
    tables, any two calls of [lookup] on [addr] settle identically: the
    outcome is the consensus over the five settled outcomes and does not
    depend on the world the call starts in. *)
Theorem lookup_deterministic (addr : string) (settled : SettledQueries) :
  neverHits cache ->
  adaptersSettleAs imports addr settled ->
  (forall w1 w2,
      result_of (lookup cache imports addr) w1
      = result_of (lookup cache imports addr) w2)
  /\ (forall w,
         result_of (lookup cache imports addr)
           (world_after (lookup cache imports addr) w)
         = result_of (lookup cache imports addr) w)
  /\ (forall w w0,
         result_of (lookup cache imports addr) w
         = result_of (consensus imports addr settled) w0).
Proof.
  intros Hmiss Hfix.
  assert (H : forall w w0,
             result_of (lookup cache imports addr) w
             = result_of (consensus imports addr settled) w0).
  { intros w w0. now apply lookup_without_hits. }
  split; [|split; [|exact H]].
  - intros w1 w2. now rewrite (H w1 w1), (H w2 w1).
  - intros w. now rewrite (H _ w), (H w w).
Qed.
End CacheClaims.

(* ================================================================== *)
(** * The defensive branch and the shape of the result                 *)
(* ================================================================== *)

Section Outcome.
Context {W : Type}.
Variable cache : CacheInterface W.
Variable imports : Imports W.

(** C7, as the code has it: when the candidate list passes the VPN gate
    and the city filter but the vote yields no winner, or a winner from
    fastly, [lookup] logs and fails with a plain [Error] whose message is
    [failed to find a correct value for a field "normalizedCity"]; this
    is not the "unresolvable geoip" error of the city filter. *)
Theorem lookup_vote_without_winner (addr : string) (w w' : W)
  (settled : SettledQueries) :
  providerQueries cache imports addr w = (Fulfilled settled, w') ->
  vpnGate imports addr settled = false ->
  noTrustedCity (withCities (candidates settled)) = false ->
  (rankSources normalizedCityField (candidates settled) = []
   \/ exists best rest,
       rankSources normalizedCityField (candidates settled) = best :: rest
       /\ provider best = fastly) ->
  lookup cache imports addr w
  = (Rejected (noCorrectValue normalizedCityField),
     logger_error imports (error_message (noCorrectValue normalizedCityField)) w')
  /\ noCorrectValue normalizedCityField
     = PlainError ("failed to find a correct value for a field "
                   ++ dquote ++ "normalizedCity" ++ dquote)
  /\ noCorrectValue normalizedCityField <> unresolvable addr.
Proof.
  intros Hq Hg Hcity Hvote.
  split; [|split; [reflexivity|apply noCorrectValue_not_unresolvable]].
  rewrite (lookup_gate_open _ _ _ _ _ _ Hq Hg), resolve_eq, Hcity, bestMatch_eq.
  destruct Hvote as [->|[best [rest [-> Hp]]]]; [reflexivity|].
  now rewrite (proj2 (Provider_eqb_eq _ _) Hp).
Qed.

Lemma In_rankSources (field : Field) (sources : list LocationInfoWithProvider)
  (x : LocationInfoWithProvider) :
  In x (rankSources field sources)
  <-> In x sources /\ field_get field x <> EmptyString.
Proof.
  rewrite rankSources_ranking, In_ranking. unfold voters.
  now rewrite filter_In, truthy_string_true.
Qed.

End Outcome.

(* ================================================================== *)
(** * Ties in the vote                                                 *)
(* ================================================================== *)

Section TieBreak.
Context {A : Type}.
Variable key : A -> string.

Lemma addKeys_prefix (l : list A) (ks : list string) :
  exists extra,
    fold_left (fun ks x => addKey (key x) ks) l ks = ks ++ extra.
Proof.
  revert ks. induction l as [|x l IH]; intros ks.
  - exists []. now rewrite app_nil_r.
  - cbn. destruct (IH (addKey (key x) ks)) as [extra ->].
    unfold addKey. destruct (existsb (String.eqb (key x)) ks).
    + now exists extra.
    + exists ([key x] ++ extra). now rewrite app_assoc.
Qed.

(** The keys seen before the first member of a group come before the
    key of that group. *)
Lemma firstSeenKeys_split (l1 l2 : list A) (x : A) :
  (forall y, In y l1 -> key y <> key x) ->
  exists extra,
    firstSeenKeys key (l1 ++ x :: l2)
    = firstSeenKeys key l1 ++ key x :: extra.
Proof.
  intros Hfirst. unfold firstSeenKeys. rewrite fold_left_app. cbn.
  fold (firstSeenKeys key l1).
  assert (Hnew : existsb (String.eqb (key x)) (firstSeenKeys key l1) = false).
  { destruct (existsb (String.eqb (key x)) (firstSeenKeys key l1)) eqn:He;
      [|reflexivity].
    apply existsb_eqb_In, In_firstSeenKeys in He.
    destruct He as [y [Hy Hk]]. now apply Hfirst in Hy. }
  unfold addKey at 2. rewrite Hnew.
  destruct (addKeys_prefix l2 (firstSeenKeys key l1 ++ [key x])) as [extra ->].
  exists extra. now rewrite <- app_assoc.
Qed.

Lemma NoDup_split_unique (k : string) (a b a' b' : list string) :
  NoDup (a ++ k :: b) -> a ++ k :: b = a' ++ k :: b' -> a = a'.
Proof.
  revert a'. induction a as [|x a IH]; intros a' Hnd Heq.
  - destruct a' as [|y a']; [reflexivity|].
    cbn in Heq. injection Heq as <- Hb. cbn in Hnd.
    inversion Hnd as [|? ? Hnotin _]; subst. exfalso. apply Hnotin.
    apply in_app_iff. right. now left.
  - destruct a' as [|y a'].
    + cbn in Heq. injection Heq as -> Hb. cbn in Hnd.
      inversion Hnd as [|? ? Hnotin _]; subst. exfalso. apply Hnotin.
      apply in_app_iff. right. now left.
    + cbn in Heq. injection Heq as <- Hrest. f_equal.
      apply IH; [|exact Hrest]. cbn in Hnd. now inversion Hnd.
Qed.

Lemma filter_head_split {B : Type} (f : B -> bool) (l : list B) (x : B)
  (tl : list B) :
  filter f l = x :: tl ->
  exists l1 l2, l = l1 ++ x :: l2 /\ forall y, In y l1 -> f y = false.
Proof.
  induction l as [|y l IH]; [discriminate|]. cbn.
  destruct (f y) eqn:Hf.
  - intros [= -> _]. exists [], l. split; [reflexivity|]. intros ? [].
  - intros Hl. destruct (IH Hl) as [l1 [l2 [-> Hl1]]].
    exists (y :: l1), l2. split; [reflexivity|].
    intros z [<-|Hz]; [exact Hf|now apply Hl1].
Qed.

(** When no key is an array index, the head of the ranking is the
    earliest element whose group no other group outnumbers: every
    element before it sits in a strictly smaller group. *)
Lemma ranking_first_seen (l : list A) (best : A) (rest : list A) :
  (forall x, In x l -> isArrayIndex (key x) = false) ->
  ranking key l = best :: rest ->
  exists l1 l2,
    l = l1 ++ best :: l2
    /\ (forall x, In x l1 ->
          length (members key (key x) l) < length (members key (key best) l))
    /\ (forall x, In x l ->
          length (members key (key x) l) <= length (members key (key best) l)).
Proof.
  intros Hno Hr.
  destruct (ranking_head key l best rest Hr) as [k0 [tl0 [Hk0 Hmax]]].
  unfold ranking, Object_values in Hr.
  rewrite ownProperties_no_index in Hr.
  2:{ intros p Hp. rewrite groupBy_spec in Hp. apply in_map_iff in Hp.
      destruct Hp as [k [<- Hk]]. cbn. apply In_firstSeenKeys in Hk.
      destruct Hk as [x [Hx <-]]. now apply Hno. }
  rewrite groupBy_spec, map_map in Hr. cbn in Hr.
  assert (Hne : forall g,
             In g (Array_sort byLengthDesc
                     (map (fun k => members key k l) (firstSeenKeys key l))) ->
             g <> []).
  { intros g Hg. apply In_Array_sort, in_map_iff in Hg.
    destruct Hg as [k [<- Hk]]. now apply members_not_nil. }
  destruct (concat_head _ _ _ Hne Hr) as [tl [t Hs]].
  destruct (Array_sort_head _ _ _ Hs) as [pre [post [Hgs [Hpre _]]]].
  apply map_eq_app in Hgs. destruct Hgs as [kpre [krest [Hkeys [Hmpre Hmrest]]]].
  destruct krest as [|k kpost]; [discriminate|].
  cbn in Hmrest. injection Hmrest as Hk _.
  destruct (filter_head_split _ _ _ _ Hk) as [l1 [l2 [Hl Hl1]]].
  assert (Hkb : key best = k).
  { assert (Hin : In best (members key k l)) by (rewrite Hk; now left).
    now apply In_members in Hin. }
  exists l1, l2. split; [exact Hl|]. split.
  - intros x Hx. rewrite Hkb, Hk. apply Hpre. rewrite <- Hmpre.
    apply in_map_iff. exists (key x). split; [reflexivity|].
    assert (Hfirst : forall y, In y l1 -> key y <> key best).
    { intros y Hy. specialize (Hl1 y Hy). rewrite Hkb.
      now apply String.eqb_neq. }
    destruct (firstSeenKeys_split l1 l2 best Hfirst) as [extra Hsplit].
    rewrite <- Hl, Hkeys, Hkb in Hsplit.
    pose proof (NoDup_firstSeenKeys key l) as Hnd. rewrite Hkeys in Hnd.
    rewrite (NoDup_split_unique _ _ _ _ _ Hnd Hsplit).
    apply In_firstSeenKeys. now exists x.
  - intros x _.
    assert (Hk0b : k0 = key best).
    { assert (Hin : In best (members key k0 l)) by (rewrite Hk0; now left).
      apply In_members in Hin. now symmetry. }
    rewrite <- Hk0b. apply Hmax.
Qed.
End TieBreak.

(* ================================================================== *)
(** * Ties and array-index keys                                        *)
(* ================================================================== *)

Section TieBreakOfTheVote.
Variable field : Field.
Variable sources : list LocationInfoWithProvider.

(** When no voter's key is an array index, the winner of the vote is the
    earliest voter of a largest group: every voter scanned before it
    belongs to a strictly smaller group, so among groups of equal,
    maximal size the one seen first wins. *)
Theorem rankSources_first_seen_wins (best : LocationInfoWithProvider)
  (rest : list LocationInfoWithProvider) :
  (forall x, In x (voters field sources) ->
             isArrayIndex (groupKey field x) = false) ->
  rankSources field sources = best :: rest ->
  exists l1 l2,
    voters field sources = l1 ++ best :: l2
    /\ (forall x, In x l1 ->
          length (members (groupKey field) (groupKey field x)
                    (voters field sources))
          < length (members (groupKey field) (groupKey field best)
                      (voters field sources)))
    /\ (forall x, In x (voters field sources) ->
          length (members (groupKey field) (groupKey field x)
                    (voters field sources))
          <= length (members (groupKey field) (groupKey field best)
                       (voters field sources))).
Proof.
  intros Hno Hr. rewrite rankSources_ranking in Hr.
  exact (ranking_first_seen (groupKey field) _ best rest Hno Hr).
Qed.
End TieBreakOfTheVote.

Import Fixtures.

(** C1, at a tie the code breaks the other way: ip2location reports
    "dallas" and ipmap reports "1770". The two groups have one member each
    and "dallas" is seen first, yet the group of "1770" is ranked first,
    because its key is an array index and the object built by [groupBy]
    lists such keys before all others. The winner is the candidate from
    ipmap, which has no network data, and [lookup] fails. *)
Theorem lookup_tie_with_numeric_city :
  candidates numericTieSettled
  = [withProvider (dallas 20001 "The Constant Company LLC") ip2location;
     withProvider (seventeenSeventy 0 EmptyString) ipmap]
  /\ firstSeenKeys (groupKey normalizedCityField) (candidates numericTieSettled)
     = ["dallas"; "1770"]
  /\ length (members (groupKey normalizedCityField) "dallas"
               (candidates numericTieSettled)) = 1
  /\ length (members (groupKey normalizedCityField) "1770"
               (candidates numericTieSettled)) = 1
  /\ isArrayIndex "1770" = true
  /\ rankSources normalizedCityField (candidates numericTieSettled)
     = [withProvider (seventeenSeventy 0 EmptyString) ipmap;
        withProvider (dallas 20001 "The Constant Company LLC") ip2location]
  /\ providerQueries NullCache numericTieRun MOCK_IP []
     = (Fulfilled numericTieSettled, [])
  /\ lookup NullCache numericTieRun MOCK_IP []
     = (Rejected (unresolvable MOCK_IP), []).
Proof. repeat split; vm_compute; reflexivity. Qed.

(* ================================================================== *)
(** * Runs of the unit tests                                           *)
(* ================================================================== *)

(** "should reject - is_proxy field is true" and "should pass - is_proxy
    field is true (whitelisted)". *)
Lemma lookup_vpn_detected_witness :
  providerQueries NullCache (dallasRun [] true) MOCK_IP []
  = (Fulfilled (dallasSettled true), [])
  /\ lookup NullCache (dallasRun [] true) MOCK_IP [] = (Rejected vpnDetected, [])
  /\ (result_of (lookup NullCache (dallasRun [MOCK_IP] true) MOCK_IP) []
      = Rejected vpnDetected
      <-> (exists value,
              Fulfilled (bundle (dallas 20001 "The Constant Company LLC") true)
              = Fulfilled value /\ isProxy value = true)
          /\ isAddrWhitelisted (dallasRun [MOCK_IP] true) MOCK_IP = false).
Proof.
  split; [reflexivity|]. split.
  - apply (lookup_vpn_detected NullCache (dallasRun [] true) MOCK_IP [] []
             _ _ _ _ _ eq_refl).
    split; [|reflexivity]. eexists. split; reflexivity.
  - apply (lookup_vpn_detected NullCache (dallasRun [MOCK_IP] true) MOCK_IP [] []
             _ _ _ _ _ eq_refl).
Defined.

(** "should fail when only fastly reports the data", here with
    ip2location answering without a city. *)
Lemma lookup_no_trusted_city_witness :
  providerQueries NullCache cityLessAndFastlyRun MOCK_IP []
  = (Fulfilled cityLessAndFastlySettled, [])
  /\ vpnGate cityLessAndFastlyRun MOCK_IP cityLessAndFastlySettled = false
  /\ candidates cityLessAndFastlySettled
     = [withProvider (emptyCity 20001 "The Constant Company LLC") ip2location]
       ++ withProvider (dallas 20005 "psychz networks") fastly :: []
  /\ lookup NullCache cityLessAndFastlyRun MOCK_IP []
     = (Rejected (InternalError "unresolvable geoip: 131.255.7.26" true), []).
Proof.
  split; [reflexivity|]. split; [reflexivity|]. split; [reflexivity|].
  apply (lookup_no_trusted_city NullCache cityLessAndFastlyRun MOCK_IP [] []
           cityLessAndFastlySettled eq_refl eq_refl).
  right.
  exists [withProvider (emptyCity 20001 "The Constant Company LLC") ip2location],
    (withProvider (dallas 20005 "psychz networks") fastly), [].
  split; [reflexivity|]. split; [discriminate|]. split; [reflexivity|].
  intros x [<-|[]]. reflexivity.
Defined.

(** "should choose top prioritized provider from the winners majority". *)
Lemma lookup_majority_city_witness :
  providerQueries NullCache majorityRun MOCK_IP [] = (Fulfilled majoritySettled, [])
  /\ 2 * length (members (groupKey normalizedCityField) "buenos aires"
                   (candidates majoritySettled))
     > length (candidates majoritySettled)
  /\ exists best rest,
      bestMatch majorityRun normalizedCityField (candidates majoritySettled) []
      = (Fulfilled (location best, best :: rest), [])
      /\ In best (candidates majoritySettled)
      /\ normalizedCity best = "buenos aires"
      /\ ((matchNetwork best (best :: rest) = None
           /\ lookup NullCache majorityRun MOCK_IP []
              = (Rejected (unresolvable MOCK_IP), []))
          \/ exists r, lookup NullCache majorityRun MOCK_IP [] = (Fulfilled r, [])
                       /\ ProbeLocation.normalizedCity r = "buenos aires").
Proof.
  split; [reflexivity|]. split; [vm_compute; lia|].
  apply (lookup_majority_city NullCache majorityRun MOCK_IP [] [] majoritySettled
           "buenos aires" eq_refl eq_refl eq_refl).
  - discriminate.
  - vm_compute; lia.
Defined.

(** "should fulfill ipmap network data with other provider network data
    with the same city". *)
Lemma lookup_network_repair_witness :
  providerQueries NullCache repairRun MOCK_IP [] = (Fulfilled repairSettled, [])
  /\ bestMatch repairRun normalizedCityField (candidates repairSettled) []
     = (Fulfilled
          (dallas 0 EmptyString,
           [withProvider (dallas 0 EmptyString) ipmap;
            withProvider (dallas 20005 "psychz networks") fastly;
            withProvider (buenosAires 61001 "interbs s.r.l.") ip2location;
            withProvider (newYork 80003 "the constant company llc") maxmind]),
        [])
  /\ exists r, lookup NullCache repairRun MOCK_IP [] = (Fulfilled r, [])
               /\ ProbeLocation.asn r = 20005%Z
               /\ ProbeLocation.network r = "psychz networks"
               /\ ProbeLocation.normalizedNetwork r = "psychz networks".
Proof.
  split; [reflexivity|]. split; [reflexivity|].
  apply (proj1 (proj2 (lookup_network_repair NullCache repairRun MOCK_IP [] [] []
                         repairSettled _ _ eq_refl eq_refl eq_refl eq_refl))
           ltac:(intros [Ha _]; now apply Ha)
           [withProvider (dallas 0 EmptyString) ipmap]
           (withProvider (dallas 20005 "psychz networks") fastly)
           [withProvider (buenosAires 61001 "interbs s.r.l.") ip2location;
            withProvider (newYork 80003 "the constant company llc") maxmind]
           eq_refl).
  - intros x [<-|[]] [_ [Ha _]]. now apply Ha.
  - split; [reflexivity|]. split; discriminate.
Defined.

(** "should work even if cache is failing". *)
Lemma lookupWithCache_fail_open_witness :
  allOperationsFail BrokenCache
  /\ adaptersSettleAs (dallasRun [] false) MOCK_IP (dallasSettled false)
  /\ result_of (lookup BrokenCache (dallasRun [] false) MOCK_IP) []
     = result_of (consensus (dallasRun [] false) MOCK_IP (dallasSettled false)) [].
Proof.
  assert (Hb : allOperationsFail BrokenCache).
  { repeat split; intros; eexists; reflexivity. }
  assert (Hs : adaptersSettleAs (dallasRun [] false) MOCK_IP (dallasSettled false)).
  { repeat split. }
  split; [exact Hb|]. split; [exact Hs|].
  exact (proj2 (proj2 (proj2 (proj2
           (lookupWithCache_fail_open BrokenCache (dallasRun [] false)
              LocationInfoT "geoip:ipmap:131.255.7.26" (ret (dallas 0 EmptyString))
              MOCK_IP (dallasSettled false))))) Hb Hs [] []).
Defined.

(** A backend that hands back the number 0: [fn] runs and its value is
    written back and returned. *)
Lemma lookupWithCache_falsy_is_miss_witness :
  cache_get ZeroCache unknownT "k" [] = (Fulfilled (Some (JNum 0)), [])
  /\ lookupWithCache ZeroCache (dallasRun [] false) unknownT "k"
       (ret (JStr "fresh")) []
     = (Fulfilled (JStr "fresh"), ["set k"]).
Proof.
  split; [reflexivity|].
  exact (proj2 (proj1 (lookupWithCache_falsy_is_miss ZeroCache (dallasRun [] false)
                         unknownT "k" (ret (JStr "fresh")) [] []
                         (Some (JNum 0)) eq_refl) eq_refl)
           (JStr "fresh") [] eq_refl).
Defined.

(** Two calls in a row with the cache of the unit tests. *)
Lemma lookup_deterministic_witness :
  neverHits NullCache
  /\ adaptersSettleAs (dallasRun [] false) MOCK_IP (dallasSettled false)
  /\ result_of (lookup NullCache (dallasRun [] false) MOCK_IP)
       (world_after (lookup NullCache (dallasRun [] false) MOCK_IP) [])
     = result_of (lookup NullCache (dallasRun [] false) MOCK_IP) [].
Proof.
  assert (Hn : neverHits NullCache) by (intros T key w; reflexivity).
  assert (Hs : adaptersSettleAs (dallasRun [] false) MOCK_IP (dallasSettled false)).
  { repeat split. }
  split; [exact Hn|]. split; [exact Hs|].
  exact (proj1 (proj2 (lookup_deterministic NullCache (dallasRun [] false) MOCK_IP
                         (dallasSettled false) Hn Hs)) []).
Defined.

(** A lone candidate with a city and no normalized city passes the city
    filter and leaves the vote without a winner. *)
Lemma lookup_vote_without_winner_witness :
  providerQueries NullCache cityOnlyRun MOCK_IP [] = (Fulfilled cityOnlySettled, [])
  /\ noTrustedCity (withCities (candidates cityOnlySettled)) = false
  /\ rankSources normalizedCityField (candidates cityOnlySettled) = []
  /\ lookup NullCache cityOnlyRun MOCK_IP []
     = (Rejected (noCorrectValue normalizedCityField),
        [error_message (noCorrectValue normalizedCityField)]).
Proof.
  split; [reflexivity|]. split; [reflexivity|]. split; [reflexivity|].
  apply (lookup_vote_without_winner NullCache cityOnlyRun MOCK_IP [] []
           cityOnlySettled eq_refl eq_refl eq_refl).
  now left.
Defined.

(** C7 as stated fails on that run: the vote has no winner, and the error
    is not the "unresolvable geoip" error. *)
Lemma lookup_vote_without_winner_counterexample :
  vpnGate cityOnlyRun MOCK_IP cityOnlySettled = false
  /\ rankSources normalizedCityField (candidates cityOnlySettled) = []
  /\ providerQueries NullCache cityOnlyRun MOCK_IP [] = (Fulfilled cityOnlySettled, [])
  /\ result_of (lookup NullCache cityOnlyRun MOCK_IP) []
     <> Rejected (unresolvable MOCK_IP).
Proof.
  split; [reflexivity|]. split; [reflexivity|]. split; [reflexivity|].
  vm_compute. discriminate.
Qed.



(* ================================================================== *)
(** * The ranked sequence                                              *)
(* ================================================================== *)

Section ConcatFacts.
Context {A : Type}.

Lemma Permutation_concat (gs gs' : list (list A)) :
  Permutation gs gs' -> Permutation (concat gs) (concat gs').
Proof.
  induction 1 as [|g gs gs' _ IH|g g' gs|gs1 gs2 gs3 _ IH1 _ IH2]; cbn.
  - reflexivity.
  - now apply Permutation_app_head.
  - rewrite !app_assoc. apply Permutation_app_tail, Permutation_app_comm.
  - now transitivity (concat gs2).
Qed.

Lemma nonNil_count_Permutation (gs gs' : list (list A)) :
  Permutation gs gs' ->
  length (filter (fun g => negb (isNil g)) gs)
  = length (filter (fun g => negb (isNil g)) gs').
Proof.
  induction 1 as [|g gs gs' _ IH|g g' gs|gs1 gs2 gs3 _ IH1 _ IH2]; cbn.
  - reflexivity.
  - destruct (isNil g); cbn; now rewrite IH.
  - destruct (isNil g), (isNil g'); reflexivity.
  - now rewrite IH1.
Qed.

(** Rearranging a list of lists of which at most one is not empty does
    not change its concatenation. *)
Lemma concat_Permutation_sparse (gs gs' : list (list A)) :
  Permutation gs gs' ->
  length (filter (fun g => negb (isNil g)) gs) <= 1 ->
  concat gs = concat gs'.
Proof.
  induction 1 as [|g gs gs' Hp IH|g g' gs|gs1 gs2 gs3 Hp1 IH1 Hp2 IH2]; cbn.
  - reflexivity.
  - intros Hc. f_equal. apply IH. destruct (isNil g); cbn in Hc; lia.
  - destruct g as [|x g], g' as [|y g']; cbn; try reflexivity.
    intros Hc. lia.
  - intros Hc. rewrite IH1 by exact Hc. apply IH2.
    now rewrite <- (nonNil_count_Permutation _ _ Hp1).
Qed.

(** Where an element of a concatenation sits. *)
Lemma concat_split_at (gs : list (list A)) (l1 : list A) (x : A) (rest : list A) :
  concat gs = l1 ++ x :: rest ->
  exists gs1 a b gs2,
    gs = gs1 ++ (a ++ x :: b) :: gs2 /\ rest = b ++ concat gs2.
Proof.
  revert l1. induction gs as [|g gs IH]; intros l1 Hc.
  - destruct l1; discriminate.
  - cbn in Hc. apply app_eq_app in Hc. destruct Hc as [l' [[Hg Hr]|[Hl Hr]]].
    + destruct l' as [|y b].
      * cbn in Hr. rewrite app_nil_r in Hg. subst g.
        destruct (IH [] (eq_sym Hr)) as [gs1 [a [b [gs2 [Hgs Hrest]]]]].
        exists (l1 :: gs1), a, b, gs2. split; [cbn; now rewrite Hgs|exact Hrest].
      * cbn in Hr. injection Hr as <- Hrest.
        exists [], l1, b, gs. split; [cbn; now rewrite Hg|exact Hrest].
    + destruct (IH l' Hr) as [gs1 [a [b [gs2 [Hgs Hrest]]]]].
      exists (g :: gs1), a, b, gs2. split; [cbn; now rewrite Hgs|exact Hrest].
Qed.

Lemma StronglySorted_after {B : Type} (R : B -> B -> Prop) (l1 : list B) (x : B)
  (l2 : list B) :
  StronglySorted R (l1 ++ x :: l2) -> Forall (R x) l2.
Proof.
  induction l1 as [|y l1 IH]; cbn; intros Hs.
  - now inversion Hs.
  - apply IH. now inversion Hs.
Qed.

(** The sort leaves the lists in order of non-increasing length. *)
Lemma Array_sort_sorted (gs : list (list A)) :
  StronglySorted (fun a b => length b <= length a) (Array_sort byLengthDesc gs).
Proof.
  induction gs as [|g gs IH]; [constructor|].
  change (Array_sort byLengthDesc (g :: gs))
    with (sortInsert byLengthDesc g (Array_sort byLengthDesc gs)).
  induction IH as [|y ys Hs IHs Hall]; cbn.
  - repeat constructor.
  - unfold byLengthDesc at 1.
    destruct (Z.leb (Z.of_nat (length y) - Z.of_nat (length g)) 0) eqn:Hle.
    + apply Z.leb_le in Hle. constructor; [now constructor|].
      constructor; [lia|].
      eapply Forall_impl; [|exact Hall]. cbn. intros a Ha. lia.
    + apply Z.leb_gt in Hle. constructor; [exact IHs|].
      apply Forall_forall. intros a Ha.
      apply (Permutation_in _ (Permutation_sortInsert byLengthDesc g ys)) in Ha.
      destruct Ha as [<-|Ha]; [lia|].
      now apply (proj1 (Forall_forall _ _) Hall).
Qed.
End ConcatFacts.

Section RankedSequence.
Context {A : Type}.
Variable key : A -> string.

Lemma members_members (k k' : string) (l : list A) :
  members key k (members key k' l)
  = if String.eqb k' k then members key k l else [].
Proof.
  unfold members. induction l as [|x l IH]; cbn.
  - now destruct (String.eqb k' k).
  - destruct (String.eqb (key x) k') eqn:Hk'; cbn.
    + apply String.eqb_eq in Hk'. rewrite Hk'.
      destruct (String.eqb k' k); cbn; now rewrite IH.
    + rewrite IH. destruct (String.eqb k' k) eqn:Hkk; [|reflexivity].
      apply String.eqb_eq in Hkk. subst k'. now rewrite Hk'.
Qed.

Lemma sparse_groups (k : string) (m : list A) (ks : list string) :
  NoDup ks ->
  length (filter (fun g => negb (isNil g))
            (map (fun k' => if String.eqb k' k then m else []) ks)) <= 1
  /\ concat (map (fun k' => if String.eqb k' k then m else []) ks)
     = if existsb (String.eqb k) ks then m else [].
Proof.
  induction 1 as [|k0 ks Hnotin Hnd [IHc IHm]]; cbn; [split; [lia|reflexivity]|].
  rewrite (String.eqb_sym k k0).
  destruct (String.eqb k0 k) eqn:He; cbn.
  - apply String.eqb_eq in He. subst k0.
    assert (Hex : existsb (String.eqb k) ks = false).
    { destruct (existsb (String.eqb k) ks) eqn:Hx; [|reflexivity].
      now apply existsb_eqb_In in Hx. }
    rewrite Hex in IHm. rewrite IHm, app_nil_r.
    assert (Hz : filter (fun g => negb (isNil g))
                   (map (fun k' => if String.eqb k' k then m else []) ks) = []).
    { clear -Hnotin. induction ks as [|k1 ks IH]; [reflexivity|]. cbn.
      destruct (String.eqb k1 k) eqn:He.
      - apply String.eqb_eq in He. subst. exfalso. apply Hnotin. now left.
      - cbn. apply IH. intros Hin. apply Hnotin. now right. }
    rewrite Hz. split; [destruct (isNil m); cbn; lia|reflexivity].
  - split; [exact IHc|exact IHm].
Qed.

(** The ranked sequence keeps the members of every group together and in
    scan order. *)
Lemma members_ranking (k : string) (l : list A) :
  members key k (ranking key l) = members key k l.
Proof.
  unfold ranking.
  assert (Hcm : forall gs : list (list A),
             members key k (concat gs) = concat (map (members key k) gs)).
  { intros gs. unfold members. symmetry. apply concat_filter_map. }
  rewrite Hcm.
  assert (Hp : Permutation
                 (map (members key k)
                    (Array_sort byLengthDesc (Object_values (groupBy l key))))
                 (map (fun k' => if String.eqb k' k then members key k l else [])
                    (firstSeenKeys key l))).
  { rewrite Permutation_Array_sort. unfold Object_values.
    rewrite Permutation_ownProperties, groupBy_spec, !map_map. cbn.
    erewrite map_ext; [reflexivity|]. intros k'. apply members_members. }
  destruct (sparse_groups k (members key k l) _ (NoDup_firstSeenKeys key l))
    as [Hcount Hconcat].
  rewrite (concat_Permutation_sparse _ _ Hp).
  - rewrite Hconcat.
    destruct (existsb (String.eqb k) (firstSeenKeys key l)) eqn:He; [reflexivity|].
    symmetry. apply members_nil_of_unseen. intros Hin.
    apply existsb_eqb_In in Hin. congruence.
  - now rewrite (nonNil_count_Permutation _ _ Hp).
Qed.

Lemma Permutation_filter_disjoint (p q : A -> bool) (l : list A) :
  (forall x, p x = true -> q x = false) ->
  Permutation (filter (fun x => (p x || q x)%bool) l) (filter p l ++ filter q l).
Proof.
  intros Hd. induction l as [|x l IH]; [reflexivity|]. cbn.
  destruct (p x) eqn:Hp; cbn.
  - rewrite (Hd x Hp). now constructor.
  - destruct (q x); [|exact IH].
    rewrite <- Permutation_middle. now constructor.
Qed.

Lemma Permutation_groups (ks : list string) (l : list A) :
  NoDup ks ->
  Permutation (concat (map (fun k => members key k l) ks))
    (filter (fun x => existsb (String.eqb (key x)) ks) l).
Proof.
  induction 1 as [|k ks Hnotin Hnd IH]; cbn.
  - induction l; [reflexivity|assumption].
  - rewrite IH. symmetry. unfold members.
    apply (Permutation_filter_disjoint
             (fun x => String.eqb (key x) k)
             (fun x => existsb (String.eqb (key x)) ks)).
    intros x Hx. apply String.eqb_eq in Hx.
    destruct (existsb (String.eqb (key x)) ks) eqn:He; [|reflexivity].
    apply existsb_eqb_In in He. congruence.
Qed.

(** The ranked sequence is a rearrangement of the list that was ranked. *)
Lemma Permutation_ranking (l : list A) : Permutation (ranking key l) l.
Proof.
  unfold ranking.
  rewrite (Permutation_concat _ _ (Permutation_Array_sort byLengthDesc _)).
  unfold Object_values.
  rewrite (Permutation_concat _ _
             (Permutation_map snd (Permutation_ownProperties (groupBy l key)))).
  rewrite groupBy_spec, map_map. cbn.
  rewrite (Permutation_groups _ l (NoDup_firstSeenKeys key l)).
  assert (Hall : filter (fun x => existsb (String.eqb (key x)) (firstSeenKeys key l)) l
                 = l).
  { apply forallb_filter_id. apply forallb_forall. intros x Hx.
    apply existsb_eqb_In, In_firstSeenKeys. now exists x. }
  now rewrite Hall.
Qed.

(** Along the ranked sequence the size of the group never grows. *)
Lemma ranking_sizes_decrease (l l1 rest : list A) (x y : A) :
  ranking key l = l1 ++ x :: rest ->
  In y rest ->
  length (members key (key y) l) <= length (members key (key x) l).
Proof.
  intros Hr Hy. unfold ranking in Hr.
  destruct (concat_split_at _ _ _ _ Hr) as [gs1 [a [b [gs2 [Hgs Hrest]]]]].
  pose proof (Array_sort_sorted (Object_values (groupBy l key))) as Hsorted.
  assert (Hgroup : forall g z,
             In g (Array_sort byLengthDesc (Object_values (groupBy l key))) ->
             In z g -> g = members key (key z) l).
  { intros g z Hg Hz. apply In_Array_sort, In_grouped in Hg.
    destruct Hg as [k [_ ->]]. apply In_members in Hz. now destruct Hz as [_ ->]. }
  rewrite Hgs in Hsorted, Hgroup.
  assert (Hx : a ++ x :: b = members key (key x) l).
  { apply Hgroup; apply in_app_iff; right; now left. }
  subst rest. apply in_app_iff in Hy. destruct Hy as [Hy|Hy].
  - assert (Hyk : a ++ x :: b = members key (key y) l).
    { apply Hgroup; [apply in_app_iff; right; now left|].
      apply in_app_iff. right. now right. }
    rewrite <- Hx, Hyk. lia.
  - apply in_concat in Hy. destruct Hy as [g [Hg Hyg]].
    assert (Hgy : g = members key (key y) l).
    { apply Hgroup; [|exact Hyg]. apply in_app_iff. right. now right. }
    rewrite <- Hx, <- Hgy.
    exact (proj1 (Forall_forall _ _) (StronglySorted_after _ _ _ _ Hsorted) _ Hg).
Qed.
End RankedSequence.

(* ================================================================== *)
(** * More on the vote, the repair and the outcome of [lookup]          *)
(* ================================================================== *)

Section VoteProperties.
Context {W : Type}.
Variable cache : CacheInterface W.
Variable imports : Imports W.

(** The ranked sequence is a rearrangement of the voters: the vote
    neither drops nor repeats a candidate that reports the field. *)
Theorem rankSources_Permutation (field : Field)
  (sources : list LocationInfoWithProvider) :
  Permutation (rankSources field sources) (voters field sources)
  /\ length (rankSources field sources) = length (voters field sources).
Proof.
  rewrite rankSources_ranking.
  pose proof (Permutation_ranking (groupKey field) (voters field sources)) as Hp.
  split; [exact Hp|now apply Permutation_length].
Qed.

(** In the ranked sequence the candidates that report the same value sit
    in the order in which [sources] lists them. *)
Theorem rankSources_keeps_scan_order (field : Field)
  (sources : list LocationInfoWithProvider) (k : string) :
  members (groupKey field) k (rankSources field sources)
  = members (groupKey field) k (voters field sources).
Proof. rewrite rankSources_ranking. apply members_ranking. Qed.

(** Along the ranked sequence the number of candidates that agree with
    the current one never grows. *)
Theorem rankSources_sizes_decrease (field : Field)
  (sources l1 rest : list LocationInfoWithProvider)
  (x y : LocationInfoWithProvider) :
  rankSources field sources = l1 ++ x :: rest ->
  In y rest ->
  length (members (groupKey field) (groupKey field y) (voters field sources))
  <= length (members (groupKey field) (groupKey field x) (voters field sources)).
Proof.
  rewrite rankSources_ranking. apply ranking_sizes_decrease.
Qed.

(** When all voters report the same value, the ranked sequence is the
    list of voters in scan order, so the winner is the first of them. *)
Theorem rankSources_unanimous (field : Field)
  (sources : list LocationInfoWithProvider) :
  (forall x y, In x (voters field sources) -> In y (voters field sources) ->
               groupKey field x = groupKey field y) ->
  rankSources field sources = voters field sources.
Proof.
  intros Hsame.
  destruct (voters field sources) as [|v vs] eqn:Hv.
  - rewrite rankSources_ranking, Hv. reflexivity.
  - pose proof (members_ranking (groupKey field) (groupKey field v)
                  (voters field sources)) as Hm.
    rewrite <- rankSources_ranking, Hv in Hm.
    assert (Hid : forall l : list LocationInfoWithProvider,
               (forall x, In x l -> In x (v :: vs)) ->
               members (groupKey field) (groupKey field v) l = l).
    { intros l Hl. unfold members. apply forallb_filter_id, forallb_forall.
      intros x Hx. apply String.eqb_eq. apply Hsame; [now apply Hl|now left]. }
    rewrite (Hid (v :: vs)) in Hm by auto.
    rewrite Hid in Hm; [exact Hm|].
    intros x Hx. rewrite <- Hv. rewrite rankSources_ranking in Hx.
    now apply In_ranking in Hx.
Qed.

(** What [bestMatch] does, in full: it fulfils without touching the
    world, with the head of the ranked sequence as winner, a winner that
    is one of [sources], reports the field and is not from fastly; or it
    logs once and rejects with the plain error, and that only when no
    source reports the field or the head of the ranking is from fastly. *)
Theorem bestMatch_outcome (field : Field) (sources : list LocationInfoWithProvider)
  (w : W) :
  match bestMatch imports field sources w with
  | (Fulfilled (winner, ranked), w1) =>
      w1 = w
      /\ ranked = rankSources field sources
      /\ exists best rest,
          ranked = best :: rest
          /\ winner = location best
          /\ In best sources
          /\ field_get field best <> EmptyString
          /\ provider best <> fastly
  | (Rejected error, w1) =>
      error = noCorrectValue field
      /\ w1 = logger_error imports (error_message (noCorrectValue field)) w
      /\ (voters field sources = []
          \/ exists best rest,
              rankSources field sources = best :: rest /\ provider best = fastly)
  end.
Proof.
  rewrite bestMatch_eq.
  destruct (rankSources field sources) as [|best rest] eqn:Hr.
  - split; [reflexivity|]. split; [reflexivity|]. left.
    rewrite rankSources_ranking in Hr. now apply ranking_nil in Hr.
  - destruct (Provider_eqb (provider best) fastly) eqn:Hp.
    + split; [reflexivity|]. split; [reflexivity|]. right.
      exists best, rest. split; [reflexivity|]. now apply Provider_eqb_eq.
    + split; [reflexivity|]. split; [reflexivity|].
      exists best, rest. split; [reflexivity|]. split; [reflexivity|].
      assert (Hin : In best (rankSources field sources)) by (rewrite Hr; now left).
      apply In_rankSources in Hin. destruct Hin as [Hin Hf].
      split; [exact Hin|]. split; [exact Hf|].
      intros Hfast. apply Provider_eqb_eq in Hfast. congruence.
Qed.



(** [matchNetwork] returns [undefined] exactly when neither the winner
    nor any ranked source with the winner's normalized city has network
    data; what it returns otherwise has a non-zero ASN and a non-empty
    network, taken from the winner or from one of the ranked sources. *)
Theorem matchNetwork_undefined_iff (winner : LocationInfo)
  (ranked : list LocationInfoWithProvider) :
  (matchNetwork winner ranked = None
   <-> ~ hasNetwork winner
       /\ forall x : LocationInfoWithProvider, In x ranked -> ~ repairs winner x)
  /\ (forall n, matchNetwork winner ranked = Some n ->
                ni_asn n <> 0%Z /\ ni_network n <> EmptyString
                /\ (n = networkOf winner
                    \/ exists source : LocationInfoWithProvider,
                        In source ranked /\ n = networkOf source)).
Proof.
  split; [split|].
  - intros Hn. unfold matchNetwork in Hn.
    destruct (truthy (asn winner) && truthy (network winner))%bool eqn:Hb;
      [discriminate|].
    split.
    + intros Hh. apply hasNetwork_true in Hh. congruence.
    + intros x Hx Hrep. revert Hn.
      destruct (in_split _ _ Hx) as [pre [post ->]].
      clear Hx. induction pre as [|y pre IH]; cbn.
      * now rewrite (proj2 (repairs_true winner x) Hrep).
      * destruct (String.eqb (normalizedCity y) (normalizedCity winner)
                  && truthy (asn y) && truthy (network y))%bool;
          [discriminate|exact IH].
  - intros [Hn Hall].
    rewrite (matchNetwork_incomplete _ _ Hn). now apply matchNetworkLoop_none.
  - intros n Hn. unfold matchNetwork in Hn.
    destruct (truthy (asn winner) && truthy (network winner))%bool eqn:Hb.
    + injection Hn as <-. apply hasNetwork_true in Hb. destruct Hb as [Ha Hnw].
      split; [exact Ha|]. split; [exact Hnw|]. now left.
    + destruct (matchNetworkLoop_some _ _ _ Hn) as [s [Hs [[_ [Ha Hnw]] ->]]].
      split; [exact Ha|]. split; [exact Hnw|]. right. now exists s.
Qed.

(** [lookup] rejects with one of three errors only: "vpn detected",
    "unresolvable geoip: <address>" or the plain error of the vote. The
    reason for which a provider or the cache rejected never reaches the
    caller. *)
Theorem lookup_rejects_with (addr : string) (w : W) (error : Error) :
  result_of (lookup cache imports addr) w = Rejected error ->
  error = vpnDetected
  \/ error = unresolvable addr
  \/ error = noCorrectValue normalizedCityField.
Proof.
  intros Hr.
  destruct (providerQueries_settles cache imports addr w) as [settled [w' Hq]].
  unfold result_of in Hr.
  destruct (vpnGate imports addr settled) eqn:Hg.
  - rewrite (lookup_gate_closed _ _ _ _ _ _ Hq Hg) in Hr. cbn in Hr.
    injection Hr as <-. now left.
  - rewrite (lookup_gate_open _ _ _ _ _ _ Hq Hg) in Hr.
    right. exact (resolve_errors imports addr _ w' _ Hr).
Qed.

(** The candidate list holds one candidate per fulfilled provider query
    and nothing else, in the fixed order ip2location, ipmap, maxmind,
    ipinfo, fastly, and no provider twice. *)
Theorem candidates_in_priority_order (settled : SettledQueries) :
  isSubsequence (map provider (candidates settled)) priorityOrder = true
  /\ NoDup (map provider (candidates settled))
  /\ length (candidates settled) = fulfilledCount settled
  /\ length (candidates settled) <= 5.
Proof.
  destruct settled as [[[[a b] c] d] e].
  destruct a, b, c, d, e; cbn;
    (split; [reflexivity|]; split; [|split; [reflexivity|lia]]);
    repeat constructor; cbn; intuition discriminate.
Qed.
End VoteProperties.

Section DefensiveBranch.
Context {W : Type}.
Variable cache : CacheInterface W.
Variable imports : Imports W.

Lemma withCities_voters (results : list LocationInfoWithProvider) :
  citiesConsistent results ->
  withCities results = voters normalizedCityField results.
Proof.
  intros Hc. unfold withCities, voters. apply filter_ext_in.
  intros x Hx. cbn [field_get normalizedCityField].
  destruct (Hc x Hx) as [H1 H2].
  destruct (city x) eqn:Ec, (normalizedCity x) eqn:En; cbn; try reflexivity.
  - specialize (H1 eq_refl). discriminate.
  - specialize (H2 eq_refl). discriminate.
Qed.

(** With consistent cities and no array-index key, a candidate list that
    passes the city filter has a winner that is not from fastly. *)
Lemma vote_winner_not_fastly (settled : SettledQueries)
  (best : LocationInfoWithProvider) (rest : list LocationInfoWithProvider) :
  citiesConsistent (candidates settled) ->
  noIndexCity (candidates settled) ->
  noTrustedCity (withCities (candidates settled)) = false ->
  rankSources normalizedCityField (candidates settled) = best :: rest ->
  Provider_eqb (provider best) fastly = false.
Proof.
  intros Hcons Hno Hcity Hr.
  destruct (Provider_eqb (provider best) fastly) eqn:Hp; [|reflexivity].
  exfalso. apply Provider_eqb_eq in Hp.
  rewrite rankSources_ranking in Hr.
  set (vs := voters normalizedCityField (candidates settled)) in *.
  destruct (ranking_head _ _ _ _ Hr) as [k [tl [Hk _]]].
  destruct (fastly_leads_alone settled k best tl Hk Hp) as [-> _].
  assert (Hkb : groupKey normalizedCityField best = k).
  { assert (Hin : In best (members (groupKey normalizedCityField) k vs))
      by (rewrite Hk; now left).
    now apply In_members in Hin. }
  assert (Hno' : forall x, In x vs ->
                   isArrayIndex (groupKey normalizedCityField x) = false).
  { intros x Hx. apply Hno. unfold vs, voters in Hx.
    now apply filter_In in Hx. }
  destruct (ranking_first_seen _ _ _ _ Hno' Hr) as [l1 [l2 [Hvs [Hl1 _]]]].
  assert (Hl1nil : l1 = []).
  { destruct l1 as [|x l1]; [reflexivity|]. exfalso.
    specialize (Hl1 x (or_introl eq_refl)). rewrite Hkb, Hk in Hl1.
    cbn [length] in Hl1.
    assert (Hx : In x (members (groupKey normalizedCityField)
                         (groupKey normalizedCityField x) vs)).
    { apply In_members. split; [|reflexivity]. rewrite Hvs. now left. }
    apply in_split in Hx. destruct Hx as [m1 [m2 Hm]].
    rewrite Hm, length_app in Hl1. cbn [length] in Hl1. lia. }
  subst l1. cbn in Hvs.
  destruct (fastly_head_alone _ _ _ _ (candidates_fastlyOnlyLast settled) Hvs Hp)
    as [-> _].
  rewrite (withCities_voters _ Hcons) in Hcity. fold vs in Hcity.
  rewrite Hvs in Hcity. cbn in Hcity.
  rewrite (proj2 (Provider_eqb_eq _ _) Hp) in Hcity. discriminate.
Qed.

(** The defensive branch of the vote cannot be reached when every
    candidate has a city exactly when it has a normalized city and no
    normalized city is an array index: [lookup] then never rejects with
    the plain error of [bestMatch]. *)
Theorem lookup_vote_always_has_winner (addr : string) (w w' : W)
  (settled : SettledQueries) :
  providerQueries cache imports addr w = (Fulfilled settled, w') ->
  citiesConsistent (candidates settled) ->
  noIndexCity (candidates settled) ->
  result_of (lookup cache imports addr) w
  <> Rejected (noCorrectValue normalizedCityField)
  /\ world_after (lookup cache imports addr) w = w'.
Proof.
  intros Hq Hcons Hno. unfold result_of, world_after.
  destruct (vpnGate imports addr settled) eqn:Hg.
  { rewrite (lookup_gate_closed _ _ _ _ _ _ Hq Hg). cbn. split; [|reflexivity].
    discriminate. }
  rewrite (lookup_gate_open _ _ _ _ _ _ Hq Hg), resolve_eq.
  destruct (noTrustedCity (withCities (candidates settled))) eqn:Hcity.
  { cbn. split; [|reflexivity]. discriminate. }
  rewrite bestMatch_eq.
  destruct (rankSources normalizedCityField (candidates settled))
    as [|best rest] eqn:Hr.
  - exfalso. rewrite rankSources_ranking in Hr.
    apply (proj1 (ranking_nil _ _)) in Hr.
    rewrite (withCities_voters _ Hcons), Hr in Hcity. discriminate.
  - rewrite (vote_winner_not_fastly settled best rest Hcons Hno Hcity Hr).
    destruct (matchNetwork best (best :: rest)); cbn; split;
      try reflexivity; discriminate.
Qed.
End DefensiveBranch.

(* ================================================================== *)
(** * Cache keys and a warm cache                                      *)
(* ================================================================== *)

Section WarmCacheFacts.
Context {W : Type}.
Variable cache : CacheInterface W.
Variable imports : Imports W.

Lemma providerQueries_keys (addr : string) :
  providerQueries cache imports addr
  = Promise_allSettled5
      (lookupWithCache cache imports Ip2LocationBundledResponseT
         (cacheKey ip2location addr) (ip2LocationLookup imports addr))
      (lookupWithCache cache imports LocationInfoT
         (cacheKey ipmap addr) (ipmapLookup imports addr))
      (lookupWithCache cache imports LocationInfoT
         (cacheKey maxmind addr) (maxmindLookup imports addr))
      (lookupWithCache cache imports LocationInfoT
         (cacheKey ipinfo addr) (ipinfoLookup imports addr))
      (lookupWithCache cache imports LocationInfoT
         (cacheKey fastly addr) (fastlyLookup imports addr)).
Proof. reflexivity. Qed.

(** The five queries of [lookup] use the keys [geoip:<provider>:<addr>],
    and two such keys are equal only for the same provider and the same
    address: entries of different providers or addresses never collide. *)
Theorem cacheKey_injective (addr : string) :
  providerQueries cache imports addr
  = Promise_allSettled5
      (lookupWithCache cache imports Ip2LocationBundledResponseT
         (cacheKey ip2location addr) (ip2LocationLookup imports addr))
      (lookupWithCache cache imports LocationInfoT
         (cacheKey ipmap addr) (ipmapLookup imports addr))
      (lookupWithCache cache imports LocationInfoT
         (cacheKey maxmind addr) (maxmindLookup imports addr))
      (lookupWithCache cache imports LocationInfoT
         (cacheKey ipinfo addr) (ipinfoLookup imports addr))
      (lookupWithCache cache imports LocationInfoT
         (cacheKey fastly addr) (fastlyLookup imports addr))
  /\ forall p q addr',
      cacheKey p addr = cacheKey q addr' <-> p = q /\ addr = addr'.
Proof.
  split; [reflexivity|]. intros p q addr'. split.
  - destruct p, q; cbn; intros H;
      solve [discriminate H | injection H as ->; now split].
  - intros [-> ->]. reflexivity.
Qed.

(** When the cache holds a value under each of the five keys, [lookup]
    queries no provider and writes nothing: the provider queries settle
    with the cached values in the world they started in, and [lookup] is
    the consensus over the cached values, the cached [isProxy] flag
    included. *)
Theorem lookup_from_warm_cache (addr : string)
  (v1 : Ip2LocationBundledResponse) (v2 v3 v4 v5 : LocationInfo) (w : W) :
  cacheHolds cache addr v1 v2 v3 v4 v5 ->
  providerQueries cache imports addr w
  = (Fulfilled (Fulfilled v1, Fulfilled v2, Fulfilled v3, Fulfilled v4, Fulfilled v5),
     w)
  /\ lookup cache imports addr w
     = consensus imports addr
         (Fulfilled v1, Fulfilled v2, Fulfilled v3, Fulfilled v4, Fulfilled v5) w.
Proof.
  intros [H1 [H2 [H3 [H4 H5]]]].
  assert (Hq : providerQueries cache imports addr w
               = (Fulfilled (Fulfilled v1, Fulfilled v2, Fulfilled v3,
                             Fulfilled v4, Fulfilled v5), w)).
  { rewrite providerQueries_keys.
    unfold Promise_allSettled5, bind, settle, ret.
    rewrite (lookupWithCache_hit cache imports Ip2LocationBundledResponseT
               _ _ w w v1 (H1 w) eq_refl).
    rewrite (lookupWithCache_hit cache imports LocationInfoT _ _ w w v2 (H2 w) eq_refl).
    rewrite (lookupWithCache_hit cache imports LocationInfoT _ _ w w v3 (H3 w) eq_refl).
    rewrite (lookupWithCache_hit cache imports LocationInfoT _ _ w w v4 (H4 w) eq_refl).
    rewrite (lookupWithCache_hit cache imports LocationInfoT _ _ w w v5 (H5 w) eq_refl).
    reflexivity. }
  split; [exact Hq|].
  exact (lookup_after_queries cache imports addr w w _ Hq).
Qed.
End WarmCacheFacts.

(* ================================================================== *)
(** * The ipmap adapter                                                *)
(* ================================================================== *)

Section IpmapFacts.
Context {W : Type}.
Variable got_get_json : string -> M W (option Ipmap.IpmapResponse).
Variable getContinentByCountry : string -> PromiseSettledResult string.
Variable normalizeCityName : string -> string.
Variable normalizeCityNamePublic : string -> string.
Variable numberOfString : string -> float.

Local Notation "'ipmapLookup_'" :=
  (Ipmap.ipmapLookup got_get_json getContinentByCountry normalizeCityName
     normalizeCityNamePublic numberOfString) (at level 0).

Lemma ipmapLookup_no_network (addr : string) (w w' : W) (v : LocationInfo) :
  ipmapLookup_ addr w = (Fulfilled v, w') ->
  asn v = 0%Z /\ network v = EmptyString /\ normalizedNetwork v = EmptyString.
Proof.
  unfold Ipmap.ipmapLookup, bind, ret, throw.
  destruct (got_get_json _ w) as [[result|e] w1]; [|discriminate].
  destruct (truthy (IpmapLocation.countryCodeAlpha2 (Ipmap.locationOf result))).
  - destruct (getContinentByCountry _); [|discriminate].
    intros [= <- _]. now repeat split.
  - intros [= <- _]. now repeat split.
Qed.

(** What [ipmapLookup] resolves to never has network data; its state is
    present only for the country "US"; without a country code it has no
    continent, no country and no state; its coordinates are [Number] of
    the payload's, which is [NaN], not the default 0, for a missing one;
    and the only effect on the world is the request. *)
Theorem ipmapLookup_shape (addr : string) (w w1 w' : W)
  (result : option Ipmap.IpmapResponse) (v : LocationInfo) :
  got_get_json ("https://ipmap-api.ripe.net/v1/locate/" ++ addr) w
  = (Fulfilled result, w1) ->
  ipmapLookup_ addr w = (Fulfilled v, w') ->
  w' = w1
  /\ asn v = 0%Z /\ network v = EmptyString /\ normalizedNetwork v = EmptyString
  /\ ~ hasNetwork v
  /\ (state v <> None -> country v = "US")
  /\ (country v = EmptyString -> continent v = EmptyString /\ state v = None)
  /\ latitude v = Ipmap.Number_ numberOfString
                    (IpmapLocation.latitude (Ipmap.locationOf result))
  /\ (IpmapLocation.latitude (Ipmap.locationOf result) = None -> latitude v = nan)
  /\ (IpmapLocation.longitude (Ipmap.locationOf result) = None -> longitude v = nan).
Proof.
  intros Hgot. unfold Ipmap.ipmapLookup, bind, ret, throw. rewrite Hgot.
  set (location := Ipmap.locationOf result).
  assert (Hshape : forall c,
             let v :=
               {| continent := c;
                  state :=
                    match IpmapLocation.countryCodeAlpha2 location with
                    | Some cc =>
                        if String.eqb cc "US"
                        then IpmapLocation.stateAnsiCode location else None
                    | None => None
                    end;
                  country :=
                    Ipmap.orElse (IpmapLocation.countryCodeAlpha2 location) EmptyString;
                  city := normalizeCityNamePublic
                            (Ipmap.orElse (IpmapLocation.cityName location) EmptyString);
                  normalizedCity :=
                    normalizeCityName
                      (Ipmap.orElse (IpmapLocation.cityName location) EmptyString);
                  asn := 0;
                  latitude :=
                    Ipmap.orElse
                      (Some (Ipmap.Number_ numberOfString
                               (IpmapLocation.latitude location))) 0%float;
                  longitude :=
                    Ipmap.orElse
                      (Some (Ipmap.Number_ numberOfString
                               (IpmapLocation.longitude location))) 0%float;
                  network := EmptyString;
                  normalizedNetwork := EmptyString |} in
             (state v <> None -> country v = "US")
             /\ latitude v = Ipmap.Number_ numberOfString
                               (IpmapLocation.latitude location)
             /\ (IpmapLocation.latitude location = None -> latitude v = nan)
             /\ (IpmapLocation.longitude location = None -> longitude v = nan)).
  { intros c. cbn. split; [|split; [reflexivity|split]].
    - destruct (IpmapLocation.countryCodeAlpha2 location) as [cc|]; cbn;
        [|congruence].
      destruct (String.eqb cc "US") eqn:He; [|congruence].
      intros _. now apply String.eqb_eq.
    - now intros ->.
    - now intros ->. }
  destruct (truthy (IpmapLocation.countryCodeAlpha2 location)) eqn:Ht.
  - destruct (getContinentByCountry _) as [c|e]; [|discriminate].
    intros [= <- <-]. destruct (Hshape c) as [Hs [Hl [Hla Hlo]]].
    split; [reflexivity|]. do 3 (split; [reflexivity|]).
    split; [intros [Ha _]; now apply Ha|].
    split; [exact Hs|]. split; [|split; [exact Hl|split; [exact Hla|exact Hlo]]].
    cbn. intros Hc.
    destruct (IpmapLocation.countryCodeAlpha2 location) as [cc|]; [|discriminate].
    cbn in Hc. subst cc. discriminate.
  - intros [= <- <-]. destruct (Hshape EmptyString) as [Hs [Hl [Hla Hlo]]].
    split; [reflexivity|]. do 3 (split; [reflexivity|]).
    split; [intros [Ha _]; now apply Ha|].
    split; [exact Hs|]. split; [|split; [exact Hl|split; [exact Hla|exact Hlo]]].
    cbn. intros Hc. split; [reflexivity|].
    destruct (IpmapLocation.countryCodeAlpha2 location) as [cc|]; [|reflexivity].
    cbn in Hc. now subst cc.
Qed.

(** A payload without a first location (a null payload, no [locations],
    an empty array) makes [ipmapLookup] resolve, without asking for a
    continent, to the record of the empty city: no continent, country or
    state, [NaN] coordinates and no network data. *)
Theorem ipmapLookup_no_location (addr : string) (w w1 : W)
  (result : option Ipmap.IpmapResponse) :
  got_get_json ("https://ipmap-api.ripe.net/v1/locate/" ++ addr) w
  = (Fulfilled result, w1) ->
  Ipmap.firstLocation result = None ->
  ipmapLookup_ addr w
  = (Fulfilled
       {| continent := EmptyString;
          state := None;
          country := EmptyString;
          city := normalizeCityNamePublic EmptyString;
          normalizedCity := normalizeCityName EmptyString;
          asn := 0;
          latitude := nan;
          longitude := nan;
          network := EmptyString;
          normalizedNetwork := EmptyString |}, w1).
Proof.
  intros Hgot Hnone. unfold Ipmap.ipmapLookup, bind, ret.
  rewrite Hgot. unfold Ipmap.locationOf. rewrite Hnone. reflexivity.
Qed.

(** [ipmapLookup] rejects exactly when the request rejects, with the
    request's error, or when the first location has a non-empty country
    code for which [getContinentByCountry] throws, with that error. *)
Theorem ipmapLookup_rejects_iff (addr : string) (w w' : W) (error : Error) :
  ipmapLookup_ addr w = (Rejected error, w')
  <-> got_get_json ("https://ipmap-api.ripe.net/v1/locate/" ++ addr) w
      = (Rejected error, w')
      \/ exists result cc,
          got_get_json ("https://ipmap-api.ripe.net/v1/locate/" ++ addr) w
          = (Fulfilled result, w')
          /\ IpmapLocation.countryCodeAlpha2 (Ipmap.locationOf result) = Some cc
          /\ cc <> EmptyString
          /\ getContinentByCountry cc = Rejected error.
Proof.
  unfold Ipmap.ipmapLookup, bind, ret, throw.
  destruct (got_get_json _ w) as [[result|e] w1].
  - destruct (IpmapLocation.countryCodeAlpha2 (Ipmap.locationOf result))
      as [cc|] eqn:Hcc; cbn.
    + destruct (truthy cc) eqn:Ht; cbn.
      * destruct (getContinentByCountry cc) as [c|e] eqn:Hc.
        -- split; [discriminate|].
           intros [H|[r [cc' [H [Hcc' [_ Hr]]]]]]; [discriminate|].
           injection H as <- <-. rewrite Hcc in Hcc'. injection Hcc' as <-.
           congruence.
        -- split.
           ++ intros [= <- <-]. right. exists result, cc.
              split; [reflexivity|]. split; [exact Hcc|].
              split; [|exact Hc]. now apply truthy_string_true.
           ++ intros [H|[r [cc' [H [Hcc' [_ Hr]]]]]]; [discriminate|].
              injection H as <- <-. rewrite Hcc in Hcc'. injection Hcc' as <-.
              congruence.
      * split; [discriminate|].
        intros [H|[r [cc' [H [Hcc' [Hne _]]]]]]; [discriminate|].
        injection H as <- <-. rewrite Hcc in Hcc'. injection Hcc' as <-.
        apply truthy_string_true in Hne. congruence.
    + split; [discriminate|].
      intros [H|[r [cc' [H [Hcc' _]]]]]; [discriminate|].
      injection H as <- <-. congruence.
  - split.
    + intros [= <- <-]. now left.
    + intros [H|[r [cc' [H _]]]]; [|discriminate].
      injection H as -> ->. reflexivity.
Qed.
End IpmapFacts.

(* ================================================================== *)
(** * [lookup] over the ipmap adapter                                  *)
(* ================================================================== *)

Section LookupOverIpmap.
Context {W : Type}.
Variable cache : CacheInterface W.
Variable imports : Imports W.

(** A fulfilled [lookup], taken apart. *)
Lemma lookup_fulfilled_inv (addr : string) (w w' w1 : W) (settled : SettledQueries)
  (r : ProbeLocation.t) :
  providerQueries cache imports addr w = (Fulfilled settled, w') ->
  lookup cache imports addr w = (Fulfilled r, w1) ->
  exists winner source : LocationInfoWithProvider,
    In winner (candidates settled)
    /\ In source (candidates settled)
    /\ repairs winner source
    /\ r = probeLocation winner (networkOf source) (matchRegion imports winner).
Proof.
  intros Hq.
  destruct (vpnGate imports addr settled) eqn:Hg.
  { rewrite (lookup_gate_closed _ _ _ _ _ _ Hq Hg). discriminate. }
  rewrite (lookup_gate_open _ _ _ _ _ _ Hq Hg), resolve_eq, bestMatch_eq.
  destruct (noTrustedCity (withCities (candidates settled))); [discriminate|].
  destruct (rankSources normalizedCityField (candidates settled))
    as [|best rest] eqn:Hr; [discriminate|].
  destruct (Provider_eqb (provider best) fastly); [discriminate|].
  assert (Hbest : In best (candidates settled)
                  /\ normalizedCity best <> EmptyString).
  { apply (In_rankSources normalizedCityField). rewrite Hr. now left. }
  destruct (matchNetwork best (best :: rest)) as [n|] eqn:Hn; [|discriminate].
  intros [= <- _]. exists best.
  unfold matchNetwork in Hn.
  destruct (truthy (asn best) && truthy (network best))%bool eqn:Hb.
  - injection Hn as <-. apply hasNetwork_true in Hb.
    exists best. split; [apply Hbest|]. split; [apply Hbest|].
    split; [now split|reflexivity].
  - destruct (matchNetworkLoop_some _ _ _ Hn) as [s [Hs [Hrep ->]]].
    exists s. split; [apply Hbest|]. split; [|split; [exact Hrep|reflexivity]].
    rewrite <- Hr in Hs. now apply In_rankSources in Hs.
Qed.

Lemma providerQueries_ipmap (addr : string) (w w' : W)
  (a : PromiseSettledResult Ip2LocationBundledResponse)
  (b c d e : PromiseSettledResult LocationInfo) :
  providerQueries cache imports addr w = (Fulfilled (a, b, c, d, e), w') ->
  exists wb,
    b = result_of (lookupWithCache cache imports LocationInfoT
                     ("geoip:ipmap:" ++ addr) (ipmapLookup imports addr)) wb.
Proof.
  unfold providerQueries, Promise_allSettled5, bind, settle, ret.
  destruct (lookupWithCache cache imports Ip2LocationBundledResponseT _ _ w)
    as [ra wa].
  destruct (lookupWithCache cache imports LocationInfoT
              ("geoip:ipmap:" ++ addr) (ipmapLookup imports addr) wa)
    as [rb wb] eqn:Hb.
  destruct (lookupWithCache cache imports LocationInfoT _ _ wb) as [rc wc].
  destruct (lookupWithCache cache imports LocationInfoT _ _ wc) as [rd wd].
  destruct (lookupWithCache cache imports LocationInfoT _ _ wd) as [re we].
  intros [= _ <- _ _ _ _]. exists wa. unfold result_of. now rewrite Hb.
Qed.

Lemma candidates_from_ipmap (a : PromiseSettledResult Ip2LocationBundledResponse)
  (b c d e : PromiseSettledResult LocationInfo) (x : LocationInfoWithProvider) :
  In x (candidates (a, b, c, d, e)) -> provider x = ipmap ->
  b = Fulfilled (location x).
Proof.
  destruct a, b, c, d, e; cbn; intros Hin Hp;
    repeat (destruct Hin as [<-|Hin]; [try discriminate Hp; try reflexivity|]);
    destruct Hin.
Qed.

(** With a cache that never hits and the adapter of [providers/ipmap.ts]
    as ipmap provider, the network data of a result never comes from
    ipmap: its ASN and network are those of a candidate from another
    provider, also when the candidate from ipmap wins the vote. *)
Theorem lookup_network_never_from_ipmap
  (got_get_json : string -> M W (option Ipmap.IpmapResponse))
  (getContinentByCountry : string -> PromiseSettledResult string)
  (normalizeCityName normalizeCityNamePublic : string -> string)
  (numberOfString : string -> float)
  (addr : string) (w w1 : W) (r : ProbeLocation.t) :
  neverHits cache ->
  ipmapLookup imports addr
  = Ipmap.ipmapLookup got_get_json getContinentByCountry normalizeCityName
      normalizeCityNamePublic numberOfString addr ->
  lookup cache imports addr w = (Fulfilled r, w1) ->
  exists settled w' (source : LocationInfoWithProvider),
    providerQueries cache imports addr w = (Fulfilled settled, w')
    /\ In source (candidates settled)
    /\ provider source <> ipmap
    /\ ProbeLocation.asn r = asn source
    /\ ProbeLocation.network r = network source
    /\ ProbeLocation.normalizedNetwork r = normalizedNetwork source.
Proof.
  intros Hmiss Hipmap Hl.
  destruct (providerQueries_settles cache imports addr w) as [settled [w' Hq]].
  destruct (lookup_fulfilled_inv addr w w' w1 settled r Hq Hl)
    as [winner [source [_ [Hsrc [[_ [Hasn _]] ->]]]]].
  exists settled, w', source. split; [exact Hq|]. split; [exact Hsrc|].
  split; [|now repeat split].
  intros Hp. destruct settled as [[[[a b] c] d] e].
  pose proof (candidates_from_ipmap a b c d e source Hsrc Hp) as Hb.
  destruct (providerQueries_ipmap addr w w' a b c d e Hq) as [wb Hout].
  destruct (lookupWithCache_no_hit cache imports LocationInfoT
              ("geoip:ipmap:" ++ addr) (ipmapLookup imports addr) wb
              (Hmiss _ _ _)) as [wm Hfn].
  rewrite Hfn, Hipmap, Hb in Hout. unfold result_of in Hout.
  destruct (Ipmap.ipmapLookup got_get_json getContinentByCountry normalizeCityName
              normalizeCityNamePublic numberOfString addr wm) as [o wo] eqn:Ho.
  cbn in Hout. subst o.
  destruct (ipmapLookup_no_network _ _ _ _ _ _ _ _ _ Ho) as [Hzero _].
  contradiction.
Qed.
End LookupOverIpmap.

Section GroupsOfTheVote.
Context {A : Type}.
Variable key : A -> string.

(** [Object.values(_.groupBy(l, key))] holds one group per distinct key,
    each with the elements of that key in scan order; the groups come in
    the order in which their keys were first seen when no key is an array
    index, and in some rearrangement of it otherwise. *)
Theorem Object_values_groupBy (l : list A) :
  Permutation (Object_values (groupBy l key))
    (map (fun k => members key k l) (firstSeenKeys key l))
  /\ NoDup (firstSeenKeys key l)
  /\ (forall k, In k (firstSeenKeys key l) <-> exists x, In x l /\ key x = k)
  /\ ((forall x, In x l -> isArrayIndex (key x) = false) ->
      Object_values (groupBy l key)
      = map (fun k => members key k l) (firstSeenKeys key l)).
Proof.
  split; [|split; [apply NoDup_firstSeenKeys|split; [apply In_firstSeenKeys|]]].
  - unfold Object_values. rewrite Permutation_ownProperties, groupBy_spec, map_map.
    reflexivity.
  - intros Hno. unfold Object_values. rewrite ownProperties_no_index.
    + now rewrite groupBy_spec, map_map.
    + intros p Hp. rewrite groupBy_spec in Hp. apply in_map_iff in Hp.
      destruct Hp as [k [<- Hk]]. cbn. apply In_firstSeenKeys in Hk.
      destruct Hk as [x [Hx <-]]. now apply Hno.
Qed.
End GroupsOfTheVote.

(* ================================================================== *)
(** * More runs                                                        *)
(* ================================================================== *)

(** Three providers say Buenos Aires, two say Dallas: maxmind leads. *)
Lemma rankSources_first_seen_wins_witness :
  rankSources normalizedCityField (candidates majoritySettled)
  = [withProvider (buenosAires 61003 "interbs s.r.l.") maxmind;
     withProvider (buenosAires 61004 "interbs s.r.l. (baehost)") ipinfo;
     withProvider (buenosAires 61005 "interbs s.r.l.") fastly;
     withProvider (dallas 20001 "The Constant Company LLC") ip2location;
     withProvider (dallas 0 EmptyString) ipmap]
  /\ exists l1 l2,
      voters normalizedCityField (candidates majoritySettled)
      = l1 ++ withProvider (buenosAires 61003 "interbs s.r.l.") maxmind :: l2
      /\ (forall x, In x l1 ->
            length (members (groupKey normalizedCityField)
                      (groupKey normalizedCityField x)
                      (voters normalizedCityField (candidates majoritySettled)))
            < length (members (groupKey normalizedCityField)
                        (groupKey normalizedCityField
                           (withProvider (buenosAires 61003 "interbs s.r.l.") maxmind))
                        (voters normalizedCityField (candidates majoritySettled))))
      /\ (forall x, In x (voters normalizedCityField (candidates majoritySettled)) ->
            length (members (groupKey normalizedCityField)
                      (groupKey normalizedCityField x)
                      (voters normalizedCityField (candidates majoritySettled)))
            <= length (members (groupKey normalizedCityField)
                         (groupKey normalizedCityField
                            (withProvider (buenosAires 61003 "interbs s.r.l.") maxmind))
                         (voters normalizedCityField (candidates majoritySettled)))).
Proof.
  split; [reflexivity|].
  apply (rankSources_first_seen_wins normalizedCityField (candidates majoritySettled)
           (withProvider (buenosAires 61003 "interbs s.r.l.") maxmind)
           [withProvider (buenosAires 61004 "interbs s.r.l. (baehost)") ipinfo;
            withProvider (buenosAires 61005 "interbs s.r.l.") fastly;
            withProvider (dallas 20001 "The Constant Company LLC") ip2location;
            withProvider (dallas 0 EmptyString) ipmap]).
  - intros x Hx. vm_compute in Hx.
    repeat (destruct Hx as [<-|Hx]; [reflexivity|]). destruct Hx.
  - reflexivity.
Defined.

Lemma rankSources_sizes_decrease_witness :
  rankSources normalizedCityField (candidates majoritySettled)
  = [withProvider (buenosAires 61003 "interbs s.r.l.") maxmind;
     withProvider (buenosAires 61004 "interbs s.r.l. (baehost)") ipinfo]
    ++ withProvider (buenosAires 61005 "interbs s.r.l.") fastly
    :: [withProvider (dallas 20001 "The Constant Company LLC") ip2location;
        withProvider (dallas 0 EmptyString) ipmap]
  /\ length (members (groupKey normalizedCityField) "dallas"
               (voters normalizedCityField (candidates majoritySettled)))
     <= length (members (groupKey normalizedCityField) "buenos aires"
                  (voters normalizedCityField (candidates majoritySettled))).
Proof.
  split; [reflexivity|].
  apply (rankSources_sizes_decrease normalizedCityField (candidates majoritySettled)
           [withProvider (buenosAires 61003 "interbs s.r.l.") maxmind;
            withProvider (buenosAires 61004 "interbs s.r.l. (baehost)") ipinfo]
           [withProvider (dallas 20001 "The Constant Company LLC") ip2location;
            withProvider (dallas 0 EmptyString) ipmap]
           (withProvider (buenosAires 61005 "interbs s.r.l.") fastly)
           (withProvider (dallas 0 EmptyString) ipmap) eq_refl).
  right. now left.
Defined.

(** "should detect US state": all five say Dallas. *)
Lemma rankSources_unanimous_witness :
  rankSources normalizedCityField (candidates (dallasSettled false))
  = voters normalizedCityField (candidates (dallasSettled false)).
Proof.
  apply (rankSources_unanimous normalizedCityField (candidates (dallasSettled false))).
  intros x y Hx Hy. vm_compute in Hx, Hy.
  repeat (destruct Hx as [<-|Hx]; [|]);
    repeat (destruct Hy as [<-|Hy]; [|]);
    solve [reflexivity | destruct Hx | destruct Hy].
Defined.


Lemma lookup_rejects_with_witness :
  result_of (lookup NullCache onlyFastlyRun MOCK_IP) []
  = Rejected (unresolvable MOCK_IP)
  /\ (unresolvable MOCK_IP = vpnDetected
      \/ unresolvable MOCK_IP = unresolvable MOCK_IP
      \/ unresolvable MOCK_IP = noCorrectValue normalizedCityField).
Proof.
  split; [reflexivity|].
  exact (lookup_rejects_with NullCache onlyFastlyRun MOCK_IP [] _ eq_refl).
Defined.

Lemma lookup_vote_always_has_winner_witness :
  providerQueries NullCache (dallasRun [] false) MOCK_IP []
  = (Fulfilled (dallasSettled false), [])
  /\ citiesConsistent (candidates (dallasSettled false))
  /\ noIndexCity (candidates (dallasSettled false))
  /\ result_of (lookup NullCache (dallasRun [] false) MOCK_IP) []
     <> Rejected (noCorrectValue normalizedCityField)
  /\ world_after (lookup NullCache (dallasRun [] false) MOCK_IP) [] = [].
Proof.
  assert (Hc : citiesConsistent (candidates (dallasSettled false))).
  { intros x Hx. vm_compute in Hx.
    repeat (destruct Hx as [<-|Hx]; [split; discriminate|]). destruct Hx. }
  assert (Hn : noIndexCity (candidates (dallasSettled false))).
  { intros x Hx. vm_compute in Hx.
    repeat (destruct Hx as [<-|Hx]; [reflexivity|]). destruct Hx. }
  split; [reflexivity|]. split; [exact Hc|]. split; [exact Hn|].
  exact (lookup_vote_always_has_winner NullCache (dallasRun [] false) MOCK_IP [] []
           (dallasSettled false) eq_refl Hc Hn).
Defined.

Lemma lookup_from_warm_cache_witness :
  cacheHolds WarmCache MOCK_IP
    (bundle (dallas 20001 "The Constant Company LLC") false)
    (dallas 20003 "psychz networks") (dallas 20003 "psychz networks")
    (dallas 20003 "psychz networks") (dallas 20003 "psychz networks")
  /\ providerQueries WarmCache onlyFastlyRun MOCK_IP []
     = (Fulfilled
          (Fulfilled (bundle (dallas 20001 "The Constant Company LLC") false),
           Fulfilled (dallas 20003 "psychz networks"),
           Fulfilled (dallas 20003 "psychz networks"),
           Fulfilled (dallas 20003 "psychz networks"),
           Fulfilled (dallas 20003 "psychz networks")), []).
Proof.
  assert (Hh : cacheHolds WarmCache MOCK_IP
                 (bundle (dallas 20001 "The Constant Company LLC") false)
                 (dallas 20003 "psychz networks") (dallas 20003 "psychz networks")
                 (dallas 20003 "psychz networks") (dallas 20003 "psychz networks")).
  { repeat split. }
  split; [exact Hh|].
  exact (proj1 (lookup_from_warm_cache WarmCache onlyFastlyRun MOCK_IP _ _ _ _ _
                  ([] : World) Hh)).
Defined.

Lemma ipmapLookup_shape_witness :
  ipmapOver ipmapDallas MOCK_IP []
  = (Fulfilled
       {| continent := "NA"; country := "US"; state := Some "TX";
          city := "Dallas"; normalizedCity := "dallas"; asn := 0;
          latitude := 32.5%float; longitude := (-96.25)%float;
          network := EmptyString; normalizedNetwork := EmptyString |}, [])
  /\ ~ hasNetwork
         {| continent := "NA"; country := "US"; state := Some "TX";
            city := "Dallas"; normalizedCity := "dallas"; asn := 0;
            latitude := 32.5%float; longitude := (-96.25)%float;
            network := EmptyString; normalizedNetwork := EmptyString |}.
Proof.
  split; [reflexivity|].
  apply (@ipmapLookup_shape World (fun _ => ret (Some ipmapDallas)) continentOf lowerCity
           (fun name => name) parseNumber MOCK_IP [] [] [] (Some ipmapDallas) _
           eq_refl eq_refl).
Defined.

Lemma ipmapLookup_no_location_witness :
  Ipmap.firstLocation (Some ipmapNothing) = None
  /\ ipmapOver ipmapNothing MOCK_IP []
     = (Fulfilled
          {| continent := EmptyString; state := None; country := EmptyString;
             city := EmptyString; normalizedCity := EmptyString; asn := 0;
             latitude := nan; longitude := nan;
             network := EmptyString; normalizedNetwork := EmptyString |}, []).
Proof.
  split; [reflexivity|].
  exact (@ipmapLookup_no_location World (fun _ => ret (Some ipmapNothing)) continentOf
           lowerCity (fun name => name) parseNumber MOCK_IP [] []
           (Some ipmapNothing) eq_refl eq_refl).
Defined.

(** ipmap wins the vote over maxmind; the network is maxmind's. *)
Lemma lookup_network_never_from_ipmap_witness :
  neverHits NullCache
  /\ exists r,
      lookup NullCache ipmapRun MOCK_IP [] = (Fulfilled r, [])
      /\ ProbeLocation.asn r = 20003%Z
      /\ exists settled w' (source : LocationInfoWithProvider),
          providerQueries NullCache ipmapRun MOCK_IP [] = (Fulfilled settled, w')
          /\ In source (candidates settled)
          /\ provider source <> ipmap
          /\ ProbeLocation.asn r = asn source
          /\ ProbeLocation.network r = network source
          /\ ProbeLocation.normalizedNetwork r = normalizedNetwork source.
Proof.
  assert (Hn : neverHits NullCache) by (intros T key w; reflexivity).
  split; [exact Hn|].
  eexists. split; [reflexivity|]. split; [reflexivity|].
  exact (lookup_network_never_from_ipmap NullCache ipmapRun
           (fun _ => ret (Some ipmapDallas)) continentOf lowerCity
           (fun name => name) parseNumber MOCK_IP [] [] _ Hn eq_refl eq_refl).
Defined.
